(** * Windowed video re-encoding: [video_exporter.py]

    A shallow embedding of [pupil_src/shared_modules/video_exporter.py]:
    the generator [export_processed_h264] and the methods of the
    [VideoExporter] plugin that start and poll export jobs.

    Conventions.
    - Python [int] is [Z].  Python [float] and [Fraction] are idealised as
      exact rationals [Q]; [int(x)] truncates towards zero.
    - A generator is run to completion: its result is the list of values it
      yields, the way it ends, and the objects it has mutated.
    - A raised exception is a value of [exn].
    - The modules the exporter imports ([video_capture], [player_methods],
      [background_helper], [av]) are not part of the file: the frame source,
      the task proxy and the encoder are modelled from the specification,
      the two resolver functions and the injected [process_frame] are
      parameters, taken to be total and to leave the capture alone. *)

From Stdlib Require Import ZArith QArith Qabs Lqa Ascii String List Sorted Lia.
From stdpp Require Import base option list gmap strings.
Import ListNotations.

Open Scope Z_scope.

(** ** Exceptions *)

Inductive exn : Type :=
| EndofVideoError
| ZeroDivisionError
| IndexError
| KeyError (key : string)
| FileNotFoundError (path : string).

(** ** Frames and the frame source *)

(** A bgr24 pixel buffer. *)
Definition image : Type := list Z.

Record Frame : Type := mkFrame {
  timestamp : Q;
  img : image;
  index : Z
}.

(** What a readable video file holds: one timestamp per frame, the size of
    its pictures and the picture at each position. *)
Record Video : Type := mkVideo {
  video_timestamps : list Q;
  video_frame_size : Z * Z;
  video_picture : Z -> image
}.

(** Modelled from the spec: class [File_Source] of [video_capture], which is
    imported by the exporter and is not part of the file.  The adapter
    reports whether it initialised, exposes the frame size and the source
    timestamp sequence, repositions its cursor on [seek_to_frame], returns
    the frame at the cursor on [get_frame] and leaves [current_frame_idx] at
    the index of the frame it returned; a request past the last valid index
    is the end-of-stream condition. *)
Record File_Source : Type := mkFile_Source {
  initialised : bool;
  timestamps : list Q;
  frame_size : Z * Z;
  picture : Z -> image;
  target_frame_idx : Z;
  current_frame_idx : Z;
  released : bool
}.

Definition File_Source_init (content : option Video) : File_Source :=
  match content with
  | Some v =>
      {| initialised := true;
         timestamps := video_timestamps v;
         frame_size := video_frame_size v;
         picture := video_picture v;
         target_frame_idx := 0;
         current_frame_idx := 0;
         released := false |}
  | None =>
      {| initialised := false;
         timestamps := [];
         frame_size := (0, 0);
         picture := fun _ => [];
         target_frame_idx := 0;
         current_frame_idx := 0;
         released := false |}
  end.

Definition seek_to_frame (c : File_Source) (seek_pos : Z) : File_Source :=
  {| initialised := initialised c;
     timestamps := timestamps c;
     frame_size := frame_size c;
     picture := picture c;
     target_frame_idx := seek_pos;
     current_frame_idx := current_frame_idx c;
     released := released c |}.

Definition advance (c : File_Source) (i : Z) : File_Source :=
  {| initialised := initialised c;
     timestamps := timestamps c;
     frame_size := frame_size c;
     picture := picture c;
     target_frame_idx := i + 1;
     current_frame_idx := i;
     released := released c |}.

Definition get_frame (c : File_Source) : exn + (Frame * File_Source) :=
  let i := target_frame_idx c in
  if i <? 0 then inl EndofVideoError
  else match timestamps c !! Z.to_nat i with
       | Some ts =>
           inr ({| timestamp := ts; img := picture c i; index := i |},
                advance c i)
       | None => inl EndofVideoError
       end.

Definition cleanup (c : File_Source) : File_Source :=
  {| initialised := initialised c;
     timestamps := timestamps c;
     frame_size := frame_size c;
     picture := picture c;
     target_frame_idx := target_frame_idx c;
     current_frame_idx := current_frame_idx c;
     released := true |}.

(** ** The encoder and the output container *)

Record VideoFrame : Type := mkVideoFrame {
  planes0 : image;
  pts : Z;
  frame_time_base : Q
}.

(** Modelled from the spec: the stream and container objects of the [av]
    binding, which is imported by the exporter and is not part of the file.
    [encode] with a frame takes the frame in and hands back a packet once
    more than [latency] frames are waiting (packets may lag frames);
    [encode] without a frame hands back a waiting packet, or nothing when
    none is left.  [encoded] is the history of the frames taken in. *)
Record VideoStream : Type := mkVideoStream {
  codec_name : string;
  rate : Q;
  bit_rate : Q;
  bit_rate_tolerance : Q;
  thread_count : Z;
  width : Z;
  height : Z;
  latency : nat;
  encoded : list VideoFrame;
  waiting : list VideoFrame
}.

Record Container : Type := mkContainer {
  location : string;
  muxed : list VideoFrame;
  closed : bool
}.

Definition with_queues (s : VideoStream) (enc wait : list VideoFrame)
  : VideoStream :=
  {| codec_name := codec_name s; rate := rate s; bit_rate := bit_rate s;
     bit_rate_tolerance := bit_rate_tolerance s;
     thread_count := thread_count s; width := width s; height := height s;
     latency := latency s; encoded := enc; waiting := wait |}.

Definition encode (f : option VideoFrame) (s : VideoStream)
  : option VideoFrame * VideoStream :=
  match f with
  | Some fr =>
      let w := waiting s ++ [fr] in
      if (latency s <? length w)%nat then
        match w with
        | p :: w' => (Some p, with_queues s (encoded s ++ [fr]) w')
        | [] => (None, with_queues s (encoded s ++ [fr]) w)
        end
      else (None, with_queues s (encoded s ++ [fr]) w)
  | None =>
      match waiting s with
      | p :: w' => (Some p, with_queues s (encoded s) w')
      | [] => (None, s)
      end
  end.

Definition mux (p : VideoFrame) (c : Container) : Container :=
  {| location := location c; muxed := muxed c ++ [p]; closed := closed c |}.

Definition close (c : Container) : Container :=
  {| location := location c; muxed := muxed c; closed := true |}.

Definition av_open (loc : string) : Container :=
  {| location := loc; muxed := []; closed := false |}.

(** ** Numbers *)

(** [int(x)] on a rational: truncation towards zero. *)
Definition int_of (x : Q) : Z := Z.quot (Qnum x) (Zpos (Qden x)).

(** [a / b] on two Python integers. *)
Definition true_div (a b : Z) : exn + Q :=
  if b =? 0 then inl ZeroDivisionError
  else inr (inject_Z a / inject_Z b)%Q.

(** ** Progress events and the environment of a run *)

Definition ProgressEvent : Type := string * Q.

Definition percent (e : ProgressEvent) : Q := snd e.

(** What a run finds outside the program: the video stored under each path
    (nothing when there is no decodable file), the number of processors and
    the delay of the encoder. *)
Record Env : Type := mkEnv {
  video_at : string -> option Video;
  cpu_count : Z;
  encoder_latency : nat
}.

(** ** [export_processed_h264] *)

Definition update_rate : Z := 10.

Definition time_base : Q := 1 # 65535.

(** The objects the frame loop reads and mutates. *)
Record loop_state : Type := mkLoop {
  capture : File_Source;
  start_time : option Q;
  next_update_idx : Z;
  video_stream : VideoStream;
  target_container : Container;
  av_frame : VideoFrame
}.

(** How one pass through the body of [while True] ends. *)
Inductive step : Type :=
| Break (st : loop_state)
| Continue (st : loop_state) (yielded : option ProgressEvent)
| Raise (e : exn) (st : loop_state).

(** How a run of the generator ends; [OutOfFuel] is the model's own and is
    shown not to occur. *)
Inductive ending : Type :=
| Returned
| Raised (e : exn)
| OutOfFuel.

Record Run : Type := mkRun {
  events : list ProgressEvent;
  ended : ending;
  source : File_Source;
  stream : option VideoStream;
  container : option Container
}.

(** The value of [progress * 100.] at frame index [cur]. *)
Definition progress_percent (export_from_index export_to_index cur : Z)
  : exn + Q :=
  match true_div (cur - export_from_index)
                 (export_to_index - export_from_index) with
  | inl e => inl e
  | inr r => inr ((r * (9 # 10) + (1 # 10)) * 100)%Q
  end.

Definition new_pts (frame : Frame) (origin : Q) : Z :=
  int_of ((timestamp frame - origin) / time_base)%Q.

Section Pipeline.

(** [pm.exact_window] and [pm.find_closest] of [player_methods] resolve
    the export range; the exporter only calls them, and hands its
    [export_range] argument to the first untouched. *)
Variable range : Type.
Variable exact_window : list Q -> range -> Q * Q.
Variable find_closest : list Q -> Q * Q -> Z * Z.

Variable process_frame : File_Source -> Frame -> image.

Definition loop_body (export_from_index export_to_index : Z)
                     (st : loop_state) : step :=
  match get_frame (capture st) with
  | inl EndofVideoError => Break st
  | inl e => Raise e st
  | inr (frame, cap) =>
      if index frame >? export_to_index then
        Break (mkLoop cap (start_time st) (next_update_idx st)
                      (video_stream st) (target_container st) (av_frame st))
      else
        let origin := match start_time st with
                      | None => timestamp frame
                      | Some t => t
                      end in
        let undistorted_img := process_frame cap frame in
        let fr := {| planes0 := undistorted_img;
                     pts := new_pts frame origin;
                     frame_time_base := frame_time_base (av_frame st) |} in
        let '(packet, vs) := encode (Some fr) (video_stream st) in
        let tc := match packet with
                  | Some p => mux p (target_container st)
                  | None => target_container st
                  end in
        if current_frame_idx cap >=? next_update_idx st then
          match progress_percent export_from_index export_to_index
                                 (current_frame_idx cap) with
          | inl e =>
              Raise e (mkLoop cap (Some origin) (next_update_idx st)
                              vs tc fr)
          | inr p =>
              Continue (mkLoop cap (Some origin)
                               (next_update_idx st + update_rate) vs tc fr)
                       (Some ("Converting video"%string, p))
          end
        else
          Continue (mkLoop cap (Some origin) (next_update_idx st) vs tc fr)
                   None
  end.

(** The frame loop.  Each unit of [fuel] pays for one pass. *)
Fixpoint frame_loop (fuel : nat) (export_from_index export_to_index : Z)
                    (st : loop_state)
  : list ProgressEvent * ending * loop_state :=
  match fuel with
  | O => ([], OutOfFuel, st)
  | S fuel' =>
      match loop_body export_from_index export_to_index st with
      | Break st' => ([], Returned, st')
      | Raise e st' => ([], Raised e, st')
      | Continue st' yielded =>
          let '(evs, e, st'') :=
            frame_loop fuel' export_from_index export_to_index st' in
          (match yielded with Some ev => ev :: evs | None => evs end,
           e, st'')
      end
  end.

(** The loop that flushes the encoder. *)
Fixpoint flush (fuel : nat) (vs : VideoStream) (tc : Container)
  : option (VideoStream * Container) :=
  match fuel with
  | O => None
  | S fuel' =>
      match encode None vs with
      | (Some packet, vs') => flush fuel' vs' (mux packet tc)
      | (None, vs') => Some (vs', tc)
      end
  end.

Definition add_stream (env : Env) (codec : string) (r : Q)
  : VideoStream :=
  {| codec_name := codec; rate := r; bit_rate := 0%Q;
     bit_rate_tolerance := 0%Q; thread_count := 1; width := 0; height := 0;
     latency := encoder_latency env; encoded := []; waiting := [] |}.

Definition configure (env : Env) (cap : File_Source)
                     (s : VideoStream) : VideoStream :=
  {| codec_name := codec_name s; rate := rate s;
     bit_rate := 150000000%Q;
     bit_rate_tolerance := (150000000 / 20)%Q;
     thread_count := Z.max 1 (cpu_count env - 1);
     width := fst (frame_size cap);
     height := snd (frame_size cap);
     latency := latency s; encoded := encoded s; waiting := waiting s |}.

Definition export_processed_h264 (env : Env)
    (world_timestamps : list Q)
    (unprocessed_video_loc target_video_loc : string)
    (export_range : range) : Run :=
  let ev0 : ProgressEvent := ("Converting video"%string, 1 # 10) in
  let cap := File_Source_init (video_at env unprocessed_video_loc) in
  if negb (initialised cap) then
    {| events := [ev0; ("Converting scene video failed"%string, 0%Q)];
       ended := Returned; source := cap;
       stream := None; container := None |}
  else
    let export_window := exact_window world_timestamps export_range in
    let '(export_from_index, export_to_index) :=
      find_closest (timestamps cap) export_window in
    let tc0 := av_open target_video_loc in
    let vs0 :=
      configure env cap (add_stream env "mpeg4" (1 / time_base)%Q) in
    let fr0 := {| planes0 := []; pts := 0;
                  frame_time_base := time_base |} in
    let st := mkLoop (seek_to_frame cap export_from_index) None
                     (export_from_index + update_rate) vs0 tc0 fr0 in
    let '(evs, e, st') :=
      frame_loop (S (length (timestamps cap)))
                 export_from_index export_to_index st in
    match e with
    | Returned =>
        match flush (S (length (waiting (video_stream st'))))
                    (video_stream st') (target_container st') with
        | Some (vs, tc) =>
            {| events := ev0 :: evs ++
                         [("Converting video completed"%string,
                           (1 * 100)%Q)];
               ended := Returned;
               source := cleanup (capture st');
               stream := Some vs;
               container := Some (close tc) |}
        | None =>
            {| events := ev0 :: evs; ended := OutOfFuel;
               source := capture st';
               stream := Some (video_stream st');
               container := Some (target_container st') |}
        end
    | _ =>
        {| events := ev0 :: evs; ended := e; source := capture st';
           stream := Some (video_stream st');
           container := Some (target_container st') |}
    end.

End Pipeline.

(** ** A resolver for the export range *)

Module Resolver.

Definition Qltb (x y : Q) : bool := negb (Qle_bool y x).

Definition within (w : Q * Q) (t : Q) : bool :=
  Qle_bool (fst w) t && Qle_bool t (snd w).

(** Modelled from the spec: [pm.exact_window] of [player_methods], not
    part of the file.  It keeps the global timestamps lying within the
    time window (inclusive) and returns the boundary timestamps of that
    sub-sequence; a window that holds no global timestamp is returned as
    it is. *)
Definition exact_window (world_timestamps : list Q) (w : Q * Q) : Q * Q :=
  match filter (fun t => Is_true (within w t)) world_timestamps with
  | [] => w
  | t :: ts => (t, List.last ts t)
  end.

(** Index of the element of [ts] closest to [t], scanning from position
    [i] with [best] as the closest index so far at distance [d]; among
    equidistant positions the earlier one wins unless [later] is set. *)
Fixpoint closest_from (later : bool) (t : Q) (ts : list Q) (i best : Z)
                      (d : Q) : Z :=
  match ts with
  | [] => best
  | x :: ts' =>
      let dx := Qabs (x - t) in
      if (if later then Qle_bool dx d else Qltb dx d)
      then closest_from later t ts' (i + 1) i dx
      else closest_from later t ts' (i + 1) best d
  end.

Definition closest (later : bool) (t : Q) (ts : list Q) : Z :=
  match ts with
  | [] => 0
  | x :: ts' => closest_from later t ts' 1 0 (Qabs (x - t))
  end.

(** Modelled from the spec: [pm.find_closest] of [player_methods], not
    part of the file.  The boundary timestamps of the window are mapped
    onto the nearest indices of the source timestamp sequence (the earlier
    index for the start and the later index for the end when equidistant);
    a window that does not meet the span of the source gives an empty
    range. *)
Definition find_closest (source_timestamps : list Q) (w : Q * Q) : Z * Z :=
  match source_timestamps with
  | [] => (0, -1)
  | x :: ts =>
      if Qltb (snd w) x || Qltb (List.last ts x) (fst w) then (0, -1)
      else (closest false (fst w) source_timestamps,
            closest true (snd w) source_timestamps)
  end.

End Resolver.

(** ** Paths and strings *)

Module Py.

Open Scope string_scope.

Definition startswith_sep (s : string) : bool :=
  match s with
  | String c _ => Ascii.eqb c "/"%char
  | EmptyString => false
  end.

Fixpoint endswith_sep (s : string) : bool :=
  match s with
  | EmptyString => false
  | String c EmptyString => Ascii.eqb c "/"%char
  | String _ s' => endswith_sep s'
  end.

(** [os.path.join(a, b)] on a POSIX system. *)
Definition join (a b : string) : string :=
  if startswith_sep b then b
  else if String.eqb a "" || endswith_sep a then a ++ b
  else a ++ "/" ++ b.

(** [s.replace(old, new)] for one-character [old] and [new]. *)
Fixpoint replace (old new : ascii) (s : string) : string :=
  match s with
  | EmptyString => EmptyString
  | String c s' =>
      String (if Ascii.eqb c old then new else c) (replace old new s')
  end.

(** [s.rfind(c)]: the last position of [c] in [s], or [-1]. *)
Fixpoint rfind_from (c : ascii) (s : string) (i found : Z) : Z :=
  match s with
  | EmptyString => found
  | String x s' =>
      rfind_from c s' (i + 1) (if Ascii.eqb x c then i else found)
  end.

Definition rfind (c : ascii) (s : string) : Z := rfind_from c s 0 (-1).

Fixpoint all_dots (s : string) : bool :=
  match s with
  | EmptyString => true
  | String c s' => Ascii.eqb c "."%char && all_dots s'
  end.

(** [os.path.splitext(p)]: the extension starts at the last dot of the
    last path component, leading dots of that component not counted. *)
Definition splitext (p : string) : string * string :=
  let sepIndex := rfind "/"%char p in
  let dotIndex := rfind "."%char p in
  if (dotIndex >? sepIndex)%Z then
    let name_start := Z.to_nat (sepIndex + 1) in
    let dot := Z.to_nat dotIndex in
    if all_dots (substring name_start (dot - name_start) p) then (p, "")
    else (substring 0 dot p, substring dot (String.length p - dot) p)
  else (p, "").

Definition accepted_extensions : list string :=
  [".mp4"; ".mkv"; ".avi"; ".mjpeg"].

Definition accepted (f : string) : bool :=
  existsb (String.eqb (snd (splitext f))) accepted_extensions.

End Py.

(** ** The plugin *)

(** What the plugin finds on disk: the directories that exist, the answer
    of [glob] to a pattern, and the key-value content of a metadata file
    (nothing when the file cannot be opened). *)
Record Disk : Type := mkDisk {
  directories : gset string;
  glob : string -> list string;
  key_value_file : string -> option (gmap string string)
}.

(** [os.makedirs(d, exist_ok=True)]. *)
Definition makedirs (d : string) (disk : Disk) : Disk :=
  {| directories := {[ d ]} ∪ directories disk;
     glob := glob disk;
     key_value_file := key_value_file disk |}.

Section Plugin.

Variable range : Type.
Variable exact_window : list Q -> range -> Q * Q.
Variable find_closest : list Q -> Q * Q -> Z * Z.

Record generator_args : Type := mkArgs {
  arg_world_timestamps : list Q;
  arg_unprocessed_video_loc : string;
  arg_target_video_loc : string;
  arg_export_range : range;
  arg_process_frame : File_Source -> Frame -> image
}.

(** The generator applied to its argument tuple. *)
Definition run_generator (a : generator_args) (env : Env) : Run :=
  export_processed_h264 range exact_window find_closest
    (arg_process_frame a) env (arg_world_timestamps a)
    (arg_unprocessed_video_loc a) (arg_target_video_loc a)
    (arg_export_range a).

(** Modelled from the spec: [Task_Proxy] of [background_helper], not part
    of the file.  A task runs a generator in the background; [fetch]
    returns the events produced since the last call, in emission order,
    and an empty result if there are none; [cancel] requests termination;
    [canceled] tells whether the task was cancelled.  [pipe] holds the
    events that have arrived and were not fetched yet. *)
Record Task_Proxy : Type := mkTask {
  task_name : string;
  generator : generator_args -> Env -> Run;
  args : generator_args;
  pipe : list ProgressEvent;
  canceled : bool
}.

Definition Task_Proxy_start (name : string)
    (g : generator_args -> Env -> Run) (a : generator_args) : Task_Proxy :=
  {| task_name := name; generator := g; args := a;
     pipe := []; canceled := false |}.

Definition fetch (t : Task_Proxy) : list ProgressEvent * Task_Proxy :=
  (pipe t,
   {| task_name := task_name t; generator := generator t; args := args t;
      pipe := []; canceled := canceled t |}).

Definition task_cancel (t : Task_Proxy) : Task_Proxy :=
  {| task_name := task_name t; generator := generator t; args := args t;
     pipe := pipe t; canceled := true |}.

Record Pool : Type := mkPool {
  rec_dir : string;
  pool_timestamps : list Q
}.

Record VideoExporter : Type := mkExporter {
  g_pool : Pool;
  export_tasks : list (string * Task_Proxy);
  status : string;
  progress : Q;
  output : string
}.

Definition VideoExporter_init (g : Pool) : VideoExporter :=
  {| g_pool := g; export_tasks := [];
     status := "Not exporting"; progress := 0; output := "Not set yet" |}.

Definition cancel (self : VideoExporter) : VideoExporter :=
  {| g_pool := g_pool self; export_tasks := [];
     status := status self; progress := progress self;
     output := output self |}.

Definition get_recording_start_date (self : VideoExporter) (disk : Disk)
  : exn + string :=
  let csv_loc := Py.join (rec_dir (g_pool self)) "info.csv" in
  match key_value_file disk csv_loc with
  | None => inl (FileNotFoundError csv_loc)
  | Some rec_info =>
      match rec_info !! "Start Date"%string with
      | None => inl (KeyError "Start Date")
      | Some d =>
          let date := Py.replace ":"%char "_"%char (Py.replace "."%char "_"%char d) in
          match rec_info !! "Start Time"%string with
          | None => inl (KeyError "Start Time")
          | Some t =>
              let time := Py.replace ":"%char "_"%char t in
              inr (date ++ "_" ++ time)%string
          end
      end
  end.

(** [add_export_job]: the value returned or the exception raised,
    together with the plugin and the disk as the call leaves them. *)
Definition add_export_job (self : VideoExporter) (disk : Disk)
    (export_range : range)
    (export_dir plugin_name input_name output_name : string)
    (process_frame : File_Source -> Frame -> image)
  : (exn + gmap string string) * VideoExporter * Disk :=
  match get_recording_start_date self disk with
  | inl e => (inl e, self, disk)
  | inr rec_start =>
      let im_dir :=
        Py.join export_dir (plugin_name ++ "_" ++ rec_start)%string in
      let disk1 := makedirs im_dir disk in
      let self1 :=
        {| g_pool := g_pool self; export_tasks := export_tasks self;
           status := status self; progress := progress self;
           output := im_dir |} in
      match
        List.filter Py.accepted
          (glob disk1
             (Py.join (rec_dir (g_pool self)) (input_name ++ ".*")%string))
      with
      | [] => (inl IndexError, self1, disk1)
      | distorted_video_loc :: _ =>
          let target_video_loc :=
            Py.join im_dir (output_name ++ ".mp4")%string in
          let generator_args :=
            {| arg_world_timestamps := pool_timestamps (g_pool self);
               arg_unprocessed_video_loc := distorted_video_loc;
               arg_target_video_loc := target_video_loc;
               arg_export_range := export_range;
               arg_process_frame := process_frame |} in
          let task :=
            Task_Proxy_start (plugin_name ++ " Video Export")%string
                             run_generator generator_args in
          (inr {[ "export_folder"%string := im_dir ]},
           {| g_pool := g_pool self;
              export_tasks :=
                export_tasks self ++ [("taskname"%string, task)];
              status := status self; progress := progress self;
              output := im_dir |},
           disk1)
      end
  end.

(** One pass of the [for] loop of [recent_events]: the status and
    progress written so far, and the task after its [fetch]. *)
Definition poll_task (shown : string * Q) (task : Task_Proxy)
  : (string * Q) * Task_Proxy :=
  let '(recent, task') := fetch task in
  let shown1 := match last recent with
                | Some ev => ev
                | None => shown
                end in
  let shown2 := if canceled task'
                then ("Export has been canceled"%string, 0%Q)
                else shown1 in
  (shown2, task').

Fixpoint poll_tasks (shown : string * Q)
                    (tasks : list (string * Task_Proxy))
  : (string * Q) * list (string * Task_Proxy) :=
  match tasks with
  | [] => (shown, [])
  | (name, task) :: rest =>
      let '(shown1, task') := poll_task shown task in
      let '(shown2, rest') := poll_tasks shown1 rest in
      (shown2, (name, task') :: rest')
  end.

Definition recent_events (self : VideoExporter) : VideoExporter :=
  let '(shown, tasks) :=
    poll_tasks (status self, progress self) (export_tasks self) in
  {| g_pool := g_pool self; export_tasks := tasks;
     status := fst shown; progress := snd shown; output := output self |}.

End Plugin.

(** ** Passes of the frame loop *)

(** The path condition under which a pass evaluates the progress
    expression, with its division by
    [export_to_index - export_from_index]. *)
Definition reaches_division (export_to_index : Z) (st : loop_state) : bool :=
  match get_frame (capture st) with
  | inl _ => false
  | inr (frame, cap) =>
      negb (index frame >? export_to_index)
      && (current_frame_idx cap >=? next_update_idx st)
  end.

(** The state after [n] complete passes, if the loop gets that far. *)
Fixpoint passes (process_frame : File_Source -> Frame -> image) (n : nat)
    (export_from_index export_to_index : Z) (st : loop_state)
  : option loop_state :=
  match n with
  | O => Some st
  | S n' =>
      match loop_body process_frame export_from_index export_to_index st with
      | Continue st' _ =>
          passes process_frame n' export_from_index export_to_index st'
      | _ => None
      end
  end.

(** The state in which [export_processed_h264] enters the frame loop. *)
Definition loop_entry (cap : File_Source) (export_from_index : Z)
    (vs : VideoStream) (tc : Container) (fr : VideoFrame) : loop_state :=
  mkLoop (seek_to_frame cap export_from_index) None
         (export_from_index + update_rate) vs tc fr.

(** The frame a pass hands to the encoder. *)
Definition frame_sent (process_frame : File_Source -> Frame -> image)
    (st : loop_state) (frame : Frame) (cap : File_Source) : VideoFrame :=
  {| planes0 := process_frame cap frame;
     pts := new_pts frame (match start_time st with
                           | None => timestamp frame
                           | Some t => t
                           end);
     frame_time_base := frame_time_base (av_frame st) |}.

(** The container after a pass that got [packet] from the encoder. *)
Definition muxed_with (packet : option VideoFrame) (tc : Container)
  : Container :=
  match packet with
  | Some p => mux p tc
  | None => tc
  end.

(** Frame [k] of the output carries the time of source frame
    [from + k], counted in ticks of the time base from the time of source
    frame [from]. *)
Definition rebased (ts : list Q) (from : Z) (k : nat) (f : VideoFrame)
  : Prop :=
  exists tk t0 : Q,
    ts !! Z.to_nat (from + Z.of_nat k) = Some tk
    /\ ts !! Z.to_nat from = Some t0
    /\ pts f = int_of ((tk - t0) / (1 # 65535))%Q
    /\ frame_time_base f = (1 # 65535)%Q.

(** What holds of the loop state before every pass, for a source with
    timestamps [ts] and a range that starts at [from]. *)
Record loop_inv (ts : list Q) (from : Z) (st : loop_state) : Prop := {
  inv_timestamps : timestamps (capture st) = ts;
  inv_target :
    target_frame_idx (capture st)
    = from + Z.of_nat (length (encoded (video_stream st)));
  inv_next : from + update_rate <= next_update_idx st;
  inv_time_base : frame_time_base (av_frame st) = time_base;
  inv_fresh : encoded (video_stream st) = [] -> start_time st = None;
  inv_origin :
    encoded (video_stream st) <> [] ->
    0 <= from
    /\ exists t0, ts !! Z.to_nat from = Some t0 /\ start_time st = Some t0;
  inv_frames :
    forall k f, encoded (video_stream st) !! k = Some f -> rebased ts from k f;
  inv_muxed :
    muxed (target_container st) ++ waiting (video_stream st)
    = encoded (video_stream st)
}.

(** The events of the frame loop: each reports the progress at an index
    [c] the loop has reached, not before [lo]. *)
Definition event_at (from to lo : Z) (ev : ProgressEvent) : Prop :=
  fst ev = "Converting video"%string
  /\ exists c, lo <= c <= to /\ from + update_rate <= c
               /\ progress_percent from to c = inr (percent ev).

(** The number of passes the loop can still make. *)
Definition passes_left (ts : list Q) (st : loop_state) : nat :=
  if target_frame_idx (capture st) <? 0 then O
  else Z.to_nat (Z.of_nat (length ts) - target_frame_idx (capture st)).

(** A sequence of percent values that never goes down. *)
Definition nondecreasing (l : list Q) : Prop :=
  forall (i j : nat) (x y : Q),
    (i <= j)%nat -> l !! i = Some x -> l !! j = Some y -> (x <= y)%Q.

(** ** A small recording to run the model on *)

Module Sample.

(** [n] frames at 30 frames per second, the first at 5 seconds. *)
Definition stamps (n : nat) : list Q :=
  map (fun i => (5 + (Z.of_nat i # 30))%Q) (seq 0 n).

Definition clip (n : nat) : Video :=
  {| video_timestamps := stamps n;
     video_frame_size := (4, 2);
     video_picture := fun i => [i] |}.

(** A machine that holds [clip n] as [/rec/world.mp4] and nothing else. *)
Definition host (n : nat) : Env :=
  {| video_at := fun path => if String.eqb path "/rec/world.mp4"
                             then Some (clip n) else None;
     cpu_count := 4;
     encoder_latency := 2 |}.

(** A transform that hands the picture on as it is. *)
Definition keep (cap : File_Source) (frame : Frame) : image := img frame.

Definition export (n : nat) (src : string) (window : Q * Q) : Run :=
  export_processed_h264 (Q * Q) Resolver.exact_window Resolver.find_closest
    keep (host n) (stamps n) src "/exports/scene.mp4" window.

Definition entry (n : nat) (from : Z) : loop_state :=
  loop_entry (File_Source_init (Some (clip n))) from
    (configure (host n) (File_Source_init (Some (clip n)))
               (add_stream (host n) "mpeg4" (1 / time_base)%Q))
    (av_open "/exports/scene.mp4")
    {| planes0 := []; pts := 0; frame_time_base := time_base |}.

(** The metadata of the recording, as read from [/rec/info.csv]. *)
Definition info : gmap string string :=
  {[ "Start Date"%string := "12.03.2018"%string;
     "Start Time"%string := "10:15:00"%string ]}.

(** A disk on which [glob] finds [found] for [/rec/world.*], with or
    without the metadata file, and where [/exports/000] exists. *)
Definition disk (found : list string) (with_info : bool) : Disk :=
  {| directories := {[ "/exports/000"%string ]};
     glob := fun pattern => if String.eqb pattern "/rec/world.*"
                            then found else [];
     key_value_file := fun path =>
       if with_info && String.eqb path "/rec/info.csv"
       then Some info else None |}.

Definition plugin : VideoExporter (Q * Q) :=
  VideoExporter_init (Q * Q)
    {| rec_dir := "/rec"; pool_timestamps := stamps 5 |}.

Definition job (d : Disk)
  : (exn + gmap string string) * VideoExporter (Q * Q) * Disk :=
  add_export_job (Q * Q) Resolver.exact_window Resolver.find_closest
    plugin d (5, 6)%Q "/exports/000" "iMotions" "world" "scene" keep.

(** A task as the host finds it at a tick. *)
Definition task (name : string) (arrived : list ProgressEvent)
                (is_canceled : bool) : Task_Proxy (Q * Q) :=
  {| task_name := name;
     generator := run_generator (Q * Q) Resolver.exact_window
                                Resolver.find_closest;
     args := {| arg_world_timestamps := stamps 5;
                arg_unprocessed_video_loc := "/rec/world.mp4";
                arg_target_video_loc := "/exports/scene.mp4";
                arg_export_range := (5, 6)%Q;
                arg_process_frame := keep |};
     pipe := arrived;
     canceled := is_canceled |}.

Definition polled (tasks : list (string * Task_Proxy (Q * Q)))
  : VideoExporter (Q * Q) :=
  {| g_pool := g_pool (Q * Q) plugin; export_tasks := tasks;
     status := "Converting video"; progress := 41;
     output := "/exports/000/iMotions_12_03_2018_10_15_00" |}.

End Sample.

(** ** A run in closed form *)

(** The timestamp the source holds at index [i]. *)
Definition stamp (cap : File_Source) (i : Z) : Q :=
  default 0%Q (timestamps cap !! Z.to_nat i).

(** The frame the source delivers at index [i]. *)
Definition frame_at (cap : File_Source) (i : Z) : Frame :=
  {| timestamp := stamp cap i; img := picture cap i; index := i |}.

(** The output frame made of the source frame at index [i], in a range
    that starts at [from]. *)
Definition output_frame (process_frame : File_Source -> Frame -> image)
    (cap : File_Source) (from i : Z) : VideoFrame :=
  {| planes0 := process_frame (advance cap i) (frame_at cap i);
     pts := new_pts (frame_at cap i) (stamp cap from);
     frame_time_base := time_base |}.

(** The last index the loop can reach: the end of the range or the end of
    the source, whichever comes first. *)
Definition last_index (cap : File_Source) (export_to_index : Z) : Z :=
  Z.min export_to_index (Z.of_nat (length (timestamps cap)) - 1).

(** The indices [first], [first + 1], ... up to [last]. *)
Definition indices (first last : Z) : list Z := seqZ first (last + 1 - first).

(** The indices [first], [first + update_rate], ... up to [last]. *)
Definition update_indices (first last : Z) : list Z :=
  (fun j => first + update_rate * j)
    <$> seqZ 0 ((last - first + update_rate) / update_rate).

(** The value of [progress * 100.] at index [c] when the division is
    defined, and the event that carries it. *)
Definition percent_at (from to c : Z) : Q :=
  ((inject_Z (c - from) / inject_Z (to - from)) * (9 # 10) + (1 # 10)) * 100.

Definition progress_event (from to c : Z) : ProgressEvent :=
  ("Converting video"%string, percent_at from to c).

(** Two captures over the same file: they differ at most in their
    cursor. *)
Definition same_source (c c' : File_Source) : Prop :=
  initialised c = initialised c'
  /\ timestamps c = timestamps c'
  /\ frame_size c = frame_size c'
  /\ picture c = picture c'
  /\ released c = released c'.

(** Two streams with the same settings: they differ at most in their
    queues. *)
Definition same_config (s s' : VideoStream) : Prop :=
  codec_name s = codec_name s'
  /\ rate s = rate s'
  /\ bit_rate s = bit_rate s'
  /\ bit_rate_tolerance s = bit_rate_tolerance s'
  /\ thread_count s = thread_count s'
  /\ width s = width s'
  /\ height s = height s'
  /\ latency s = latency s'.

(** What holds of the loop state before every pass, for a capture [cap]
    seeked to [from]: the frames sent so far are those from [from] up to
    the cursor, and the next update is due at a multiple of [update_rate]
    past [from], not before the cursor. *)
Record trace_inv (cap : File_Source) (from : Z) (st : loop_state) : Prop := {
  tr_source : same_source (capture st) cap;
  tr_from : 0 <= from;
  tr_target :
    target_frame_idx (capture st)
    = from + Z.of_nat (length (encoded (video_stream st)));
  tr_time_base : frame_time_base (av_frame st) = time_base;
  tr_fresh : encoded (video_stream st) = [] -> start_time st = None;
  tr_origin :
    encoded (video_stream st) <> [] -> start_time st = Some (stamp cap from);
  tr_due : target_frame_idx (capture st) <= next_update_idx st;
  tr_next :
    exists j, 1 <= j /\ next_update_idx st = from + update_rate * j
}.

(** ** The plugin and its host *)

Section Host.

Variable range : Type.

(** [gl_display]: the value written to [menu_icon.indicator_stop]. *)
Definition gl_display (self : VideoExporter range) : Q :=
  (progress range self / 100)%Q.

(** What a notification holds under a key. *)
Inductive value : Type :=
| Str (s : string)
| Range (r : range).

Definition is_str (v : value) (s : string) : bool :=
  match v with
  | Str s' => String.eqb s' s
  | Range _ => false
  end.

(** [export_data] is abstract in [VideoExporter]: what a subclass makes of
    it is a parameter, with the exception it raises if it raises one. *)
Variable export_data :
  value -> value -> VideoExporter range -> Disk ->
  option exn * VideoExporter range * Disk.

Definition on_notify (self : VideoExporter range) (disk : Disk)
    (notification : gmap string value)
  : option exn * VideoExporter range * Disk :=
  match notification !! "subject"%string with
  | None => (Some (KeyError "subject"), self, disk)
  | Some subject =>
      if is_str subject "should_export" then
        let self1 := cancel range self in
        match notification !! "range"%string with
        | None => (Some (KeyError "range"), self1, disk)
        | Some r =>
            match notification !! "export_dir"%string with
            | None => (Some (KeyError "export_dir"), self1, disk)
            | Some d => export_data r d self1 disk
            end
        end
      else (None, self, disk)
  end.

End Host.

(** A task that has nothing to report and was not cancelled. *)
Definition quiet {range : Type} (entry : string * Task_Proxy range) : Prop :=
  fst (fetch range (snd entry)) = []
  /\ canceled range (snd entry) = false.

(** The characters of a string. *)
Definition chars (s : string) : list ascii := list_ascii_of_string s.

(** ** More sample runs *)

Module Cases.

(** A resolver that answers with a fixed range. *)
Definition fixed (r : Z * Z) (source_timestamps : list Q) (w : Q * Q)
  : Z * Z := r.

(** The sample recording of [n] frames exported over the range [r]. *)
Definition export (n : nat) (r : Z * Z) : Run :=
  export_processed_h264 (Q * Q) Resolver.exact_window (fixed r)
    Sample.keep (Sample.host n) (Sample.stamps n) "/rec/world.mp4"
    "/exports/scene.mp4" (5, 6)%Q.

(** A subclass whose [export_data] does nothing. *)
Definition idle (r d : value (Q * Q)) (self : VideoExporter (Q * Q))
    (disk : Disk) : option exn * VideoExporter (Q * Q) * Disk :=
  (None, self, disk).

(** Two tracked tasks, the first cancelled by its owner, the second
    running with nothing new. *)
Definition two_tasks : VideoExporter (Q * Q) :=
  Sample.polled
    [("taskname"%string,
      Sample.task "first" [("Converting video"%string, 72%Q)] true);
     ("taskname"%string, Sample.task "second" [] false)].

End Cases.

(** * Properties *)

(** The example of the specification: the window [1.000, 2.000] over the
    source timestamps [0.95, 1.00, 1.50, 2.00, 2.05] resolves to [(1, 3)]. *)
Example find_closest_example :
  Resolver.find_closest [95 # 100; 1; 3 # 2; 2; 205 # 100]%Q (1, 2)%Q = (1, 3).
Proof. reflexivity. Qed.

Example splitext_example :
  Py.splitext "/rec/000/world.mp4" = ("/rec/000/world", ".mp4")%string
  /\ Py.splitext "/rec.d/.hidden" = ("/rec.d/.hidden", "")%string
  /\ Py.join "/exports/000" "iMotions_x" = "/exports/000/iMotions_x"%string.
Proof. repeat split. Qed.

(** ** The frame source *)

Lemma get_frame_inv (c c' : File_Source) (f : Frame) :
  get_frame c = inr (f, c') ->
  0 <= target_frame_idx c
  /\ timestamps c !! Z.to_nat (target_frame_idx c) = Some (timestamp f)
  /\ index f = target_frame_idx c
  /\ c' = advance c (target_frame_idx c).
Proof.
  unfold get_frame. destruct (Z.ltb_spec (target_frame_idx c) 0) as [Hneg|Hpos].
  - discriminate.
  - destruct (timestamps c !! Z.to_nat (target_frame_idx c)) as [ts|] eqn:Hts.
    + intros [= <- <-]. simpl. auto.
    + discriminate.
Qed.

Lemma get_frame_end (c : File_Source) (e : exn) :
  get_frame c = inl e -> e = EndofVideoError.
Proof.
  unfold get_frame. destruct (target_frame_idx c <? 0).
  - congruence.
  - destruct (timestamps c !! Z.to_nat (target_frame_idx c)); congruence.
Qed.

Lemma get_frame_some (c : File_Source) (ts : Q) :
  0 <= target_frame_idx c ->
  timestamps c !! Z.to_nat (target_frame_idx c) = Some ts ->
  get_frame c =
    inr ({| timestamp := ts; img := picture c (target_frame_idx c);
            index := target_frame_idx c |},
         advance c (target_frame_idx c)).
Proof.
  intros Hpos Hts. unfold get_frame.
  destruct (Z.ltb_spec (target_frame_idx c) 0); [lia|]. now rewrite Hts.
Qed.

(** ** The encoder *)

Lemma encode_frame_encoded (fr : VideoFrame) (s : VideoStream) :
  encoded (snd (encode (Some fr) s)) = encoded s ++ [fr].
Proof.
  unfold encode. destruct (latency s <? length (waiting s ++ [fr]))%nat.
  - destruct (waiting s ++ [fr]); reflexivity.
  - reflexivity.
Qed.

Lemma encode_frame_queue (fr : VideoFrame) (s : VideoStream)
      (tc : Container) :
  muxed (muxed_with (fst (encode (Some fr) s)) tc)
  ++ waiting (snd (encode (Some fr) s))
  = (muxed tc ++ waiting s) ++ [fr].
Proof.
  unfold encode. rewrite <- app_assoc.
  destruct (latency s <? length (waiting s ++ [fr]))%nat.
  - destruct (waiting s ++ [fr]) as [|p w]; simpl.
    + now rewrite !app_nil_r.
    + now rewrite <- app_assoc.
  - reflexivity.
Qed.

Lemma encode_frame_rate (f : option VideoFrame) (s : VideoStream) :
  rate (snd (encode f s)) = rate s.
Proof.
  unfold encode. destruct f as [fr|].
  - destruct (latency s <? length (waiting s ++ [fr]))%nat;
      [destruct (waiting s ++ [fr])|]; reflexivity.
  - destruct (waiting s); reflexivity.
Qed.

Lemma flush_encoded (fuel : nat) (vs vs' : VideoStream) (tc tc' : Container) :
  flush fuel vs tc = Some (vs', tc') ->
  encoded vs' = encoded vs /\ rate vs' = rate vs /\ waiting vs' = [].
Proof.
  revert vs tc. induction fuel as [|fuel IH]; intros vs tc; simpl.
  - discriminate.
  - unfold encode. destruct (waiting vs) as [|p w] eqn:Hw.
    + intros [= <- <-]. auto.
    + intros H. apply IH in H. simpl in H. exact H.
Qed.

Lemma flush_total (fuel : nat) (vs : VideoStream) (tc : Container) :
  (length (waiting vs) < fuel)%nat ->
  exists vs' tc',
    flush fuel vs tc = Some (vs', tc')
    /\ muxed tc' = muxed tc ++ waiting vs.
Proof.
  revert vs tc. induction fuel as [|fuel IH]; intros vs tc Hlen; [lia|].
  simpl. unfold encode. destruct (waiting vs) as [|p w] eqn:Hw.
  - exists vs, tc. split; [reflexivity|]. now rewrite app_nil_r.
  - destruct (IH (with_queues vs (encoded vs) w) (mux p tc)) as (vs' & tc' & H1 & H2).
    + simpl in *. lia.
    + exists vs', tc'. split; [exact H1|]. rewrite H2. simpl.
      now rewrite <- app_assoc.
Qed.

(** ** Truncation and the tick count *)

Lemma int_of_zero_num (x : Q) : Qnum x = 0 -> int_of x = 0.
Proof. intros H. unfold int_of. rewrite H. apply Z.quot_0_l. discriminate. Qed.

Lemma new_pts_origin (frame : Frame) : new_pts frame (timestamp frame) = 0.
Proof.
  unfold new_pts. apply int_of_zero_num.
  destruct (timestamp frame) as [n d]. unfold time_base. simpl. lia.
Qed.

(** Dividing by the time base counts ticks of 1/65535 second. *)
Lemma ticks_of_seconds (x : Q) : (x / time_base == x * 65535)%Q.
Proof. unfold time_base, Qdiv. reflexivity. Qed.

(** [int_of] lies between zero and its argument, less than one away. *)
Lemma int_of_truncates (x : Q) :
  ((0 <= x)%Q -> (inject_Z (int_of x) <= x)%Q /\ (x < inject_Z (int_of x + 1))%Q)
  /\ ((x <= 0)%Q -> (x <= inject_Z (int_of x))%Q /\ (inject_Z (int_of x - 1) < x)%Q).
Proof.
  destruct x as [n d]. unfold int_of, Qle, Qlt. simpl.
  assert (Hd : 0 < Z.pos d) by lia.
  pose proof (Z.quot_rem' n (Z.pos d)) as Hqr.
  split; intros Hx.
  - assert (Hn : 0 <= n) by lia.
    pose proof (Z.rem_bound_pos n (Z.pos d) Hn Hd) as Hr.
    nia.
  - assert (Hn : n <= 0) by lia.
    assert (Hm : 0 <= - n) by lia.
    pose proof (Z.rem_bound_pos (- n) (Z.pos d) Hm Hd) as Hr.
    rewrite Z.rem_opp_l in Hr by lia.
    nia.
Qed.

(** ** The progress expression *)

Lemma ratio_bounds (a d : Z) :
  0 < d -> 0 <= a <= d ->
  (0 <= inject_Z a / inject_Z d)%Q /\ (inject_Z a / inject_Z d <= 1)%Q.
Proof.
  intros Hd Ha.
  assert (Hd' : (0 < inject_Z d)%Q) by (unfold Qlt; simpl; lia).
  split.
  - apply Qle_shift_div_l; [exact Hd'|]. rewrite Qmult_0_l.
    unfold Qle; simpl; lia.
  - apply Qle_shift_div_r; [exact Hd'|]. rewrite Qmult_1_l.
    unfold Qle; simpl; lia.
Qed.

Lemma ratio_mono (a b d : Z) :
  0 < d -> a <= b ->
  (inject_Z a / inject_Z d <= inject_Z b / inject_Z d)%Q.
Proof.
  intros Hd Hab. unfold Qdiv. apply Qmult_le_compat_r.
  - unfold Qle; simpl; lia.
  - apply Qinv_le_0_compat. unfold Qle; simpl; lia.
Qed.

Lemma progress_percent_defined (from to c : Z) :
  from + update_rate <= c -> c <= to ->
  exists p, progress_percent from to c = inr p
            /\ (10 <= p)%Q /\ (p <= 100)%Q.
Proof.
  unfold update_rate, progress_percent, true_div. intros Hlo Hhi.
  destruct (Z.eqb_spec (to - from) 0) as [Hz|Hnz]; [lia|].
  eexists. split; [reflexivity|].
  destruct (ratio_bounds (c - from) (to - from)) as [H0 H1]; [lia|lia|].
  split; lra.
Qed.

Lemma progress_percent_mono (from to c c' : Z) (p p' : Q) :
  from + update_rate <= c -> c <= c' -> c' <= to ->
  progress_percent from to c = inr p ->
  progress_percent from to c' = inr p' ->
  (p <= p')%Q.
Proof.
  unfold update_rate, progress_percent, true_div. intros Hlo Hcc Hhi.
  destruct (Z.eqb_spec (to - from) 0) as [Hz|Hnz]; [lia|].
  intros [= <-] [= <-].
  pose proof (ratio_mono (c - from) (c' - from) (to - from)) as Hm.
  assert (Hr : (inject_Z (c - from) / inject_Z (to - from)
                <= inject_Z (c' - from) / inject_Z (to - from))%Q)
    by (apply Hm; lia).
  lra.
Qed.

(** ** One pass of the frame loop *)

Section Passes.

Variable process_frame : File_Source -> Frame -> image.
Variables export_from_index export_to_index : Z.

Local Abbreviation body :=
  (loop_body process_frame export_from_index export_to_index).

(** What a pass does, by the way it ends. *)
Lemma body_break (st st' : loop_state) :
  body st = Break st' ->
  video_stream st' = video_stream st
  /\ target_container st' = target_container st
  /\ timestamps (capture st') = timestamps (capture st)
  /\ (forall frame cap, get_frame (capture st) = inr (frame, cap) ->
                        export_to_index < index frame).
Proof.
  unfold loop_body.
  destruct (get_frame (capture st)) as [e|[frame cap]] eqn:Hg.
  - destruct e; intros [= <-]; repeat split; intros; discriminate.
  - destruct (Z.gtb_spec (index frame) export_to_index) as [Hgt|Hle].
    + intros [= <-]. simpl.
      apply get_frame_inv in Hg as (_ & _ & _ & ->).
      repeat split. intros f c [= <- <-]. lia.
    + destruct (encode _ _) as [packet vs].
      destruct (_ >=? _); [destruct (progress_percent _ _ _)|]; discriminate.
Qed.

Lemma body_frame (st : loop_state) (frame : Frame) (cap : File_Source) :
  get_frame (capture st) = inr (frame, cap) ->
  index frame <= export_to_index ->
  exists st',
    capture st' = cap
    /\ start_time st' = Some (match start_time st with
                              | None => timestamp frame
                              | Some t => t
                              end)
    /\ encoded (video_stream st') =
         encoded (video_stream st) ++ [frame_sent process_frame st frame cap]
    /\ rate (video_stream st') = rate (video_stream st)
    /\ frame_time_base (av_frame st') = frame_time_base (av_frame st)
    /\ muxed (target_container st') ++ waiting (video_stream st')
       = (muxed (target_container st) ++ waiting (video_stream st))
         ++ [frame_sent process_frame st frame cap]
    /\ ((current_frame_idx cap < next_update_idx st
         /\ body st = Continue st' None
         /\ next_update_idx st' = next_update_idx st)
        \/ (next_update_idx st <= current_frame_idx cap
            /\ exists p,
                 progress_percent export_from_index export_to_index
                                  (current_frame_idx cap) = inr p
                 /\ body st = Continue st'
                                (Some ("Converting video"%string, p))
                 /\ next_update_idx st' = next_update_idx st + update_rate)
        \/ (next_update_idx st <= current_frame_idx cap
            /\ exists e,
                 progress_percent export_from_index export_to_index
                                  (current_frame_idx cap) = inl e
                 /\ body st = Raise e st'
                 /\ next_update_idx st' = next_update_idx st)).
Proof.
  intros Hg Hle. unfold loop_body. rewrite Hg.
  destruct (Z.gtb_spec (index frame) export_to_index) as [Hgt|_]; [lia|].
  fold (frame_sent process_frame st frame cap).
  set (fr := frame_sent process_frame st frame cap).
  pose proof (encode_frame_encoded fr (video_stream st)) as Henc.
  pose proof (encode_frame_rate (Some fr) (video_stream st)) as Hrate.
  pose proof (encode_frame_queue fr (video_stream st) (target_container st))
    as Hqueue.
  destruct (encode (Some fr) (video_stream st)) as [packet vs].
  simpl in Henc, Hrate, Hqueue.
  fold (muxed_with packet (target_container st)).
  set (origin := match start_time st with
                 | None => timestamp frame
                 | Some t => t
                 end).
  destruct (Z.geb_spec (current_frame_idx cap) (next_update_idx st))
    as [Hup|Hno].
  - destruct (progress_percent export_from_index export_to_index
                               (current_frame_idx cap)) as [e|p] eqn:Hp.
    + exists (mkLoop cap (Some origin) (next_update_idx st) vs
                     (muxed_with packet (target_container st)) fr).
      simpl. repeat (split; [auto; fail|]).
      right; right. split; [lia|]. exists e. auto.
    + exists (mkLoop cap (Some origin) (next_update_idx st + update_rate) vs
                     (muxed_with packet (target_container st)) fr).
      simpl. repeat (split; [auto; fail|]).
      right; left. split; [lia|]. exists p. auto.
  - exists (mkLoop cap (Some origin) (next_update_idx st) vs
                   (muxed_with packet (target_container st)) fr).
    simpl. repeat (split; [auto; fail|]).
    left. split; [lia|]. auto.
Qed.

End Passes.

(** ** The invariant of the frame loop *)

Section Invariant.

Variable process_frame : File_Source -> Frame -> image.
Variables (ts : list Q) (export_from_index export_to_index : Z).

Local Abbreviation body :=
  (loop_body process_frame export_from_index export_to_index).
Local Abbreviation inv := (loop_inv ts export_from_index).

Lemma body_stops (st : loop_state) :
  (target_frame_idx (capture st) < 0
   \/ Z.of_nat (length (timestamps (capture st)))
      <= target_frame_idx (capture st)
   \/ export_to_index < target_frame_idx (capture st)) ->
  exists st', body st = Break st'
              /\ video_stream st' = video_stream st
              /\ target_container st' = target_container st.
Proof.
  intros Hstop. unfold loop_body.
  destruct (get_frame (capture st)) as [e|[frame cap]] eqn:Hg.
  - apply get_frame_end in Hg as ->. eauto.
  - apply get_frame_inv in Hg as (Hpos & Hts & Hidx & _).
    apply lookup_lt_Some in Hts.
    destruct (Z.gtb_spec (index frame) export_to_index) as [Hgt|Hle].
    + eexists. simpl. eauto.
    + lia.
Qed.

Lemma body_continues (st : loop_state) :
  inv st ->
  0 <= target_frame_idx (capture st) ->
  target_frame_idx (capture st) < Z.of_nat (length ts) ->
  target_frame_idx (capture st) <= export_to_index ->
  exists st' y,
    body st = Continue st' y
    /\ inv st'
    /\ length (encoded (video_stream st'))
       = S (length (encoded (video_stream st)))
    /\ rate (video_stream st') = rate (video_stream st)
    /\ (y = None
        \/ exists p, y = Some ("Converting video"%string, p)
              /\ export_from_index + update_rate
                 <= target_frame_idx (capture st)
              /\ progress_percent export_from_index export_to_index
                                  (target_frame_idx (capture st)) = inr p).
Proof.
  intros [Hts Htgt Hnext Htb Hfresh Horigin Hframes Hmuxed] Hpos Hlen Hto.
  destruct (lookup_lt_is_Some_2 ts (Z.to_nat (target_frame_idx (capture st))))
    as [t Ht]; [lia|].
  pose proof (get_frame_some (capture st) t Hpos) as Hg.
  rewrite Hts in Hg. specialize (Hg Ht).
  set (frame := {| timestamp := t;
                   img := picture (capture st) (target_frame_idx (capture st));
                   index := target_frame_idx (capture st) |}) in Hg.
  set (cap := advance (capture st) (target_frame_idx (capture st))) in Hg.
  destruct (body_frame process_frame export_from_index export_to_index
                       st frame cap Hg Hto)
    as (st' & Hcap & Hstart & Henc & Hrate & Htb' & Hqueue & Hcases).
  assert (Hinv' : inv st').
  { constructor.
    - rewrite Hcap. simpl. exact Hts.
    - rewrite Hcap, Henc, length_app. simpl. lia.
    - destruct Hcases as [(_ & _ & ->)|[(_ & p & _ & _ & ->)|(_ & e & _ & _ & ->)]];
        unfold update_rate in *; lia.
    - congruence.
    - rewrite Henc. intros H. now apply app_eq_nil in H as [_ H].
    - intros _. rewrite Hstart.
      destruct (encoded (video_stream st)) as [|f0 enc] eqn:Hold.
      + rewrite (Hfresh eq_refl). simpl in Htgt.
        rewrite Z.add_0_r in Htgt.
        rewrite <- Htgt. split; [lia|]. exists t. auto.
      + destruct Horigin as (Hfrom & t0 & Ht0 & Hst); [discriminate|].
        rewrite Hst. split; [lia|]. exists t0. auto.
    - intros k f. rewrite Henc. intros Hk.
      apply lookup_app_Some in Hk as [Hk|[Hge Hk]].
      + now apply Hframes.
      + apply list_lookup_singleton_Some in Hk as [Hk0 <-].
        assert (Hkk : k = length (encoded (video_stream st))) by lia.
        subst k. unfold rebased, frame_sent. simpl.
        destruct (encoded (video_stream st)) as [|f0 enc] eqn:Hold.
        * rewrite (Hfresh eq_refl). simpl in Htgt |- *.
          rewrite Z.add_0_r in Htgt. rewrite Z.add_0_r.
          exists t, t. rewrite <- Htgt. repeat split; auto.
        * destruct Horigin as (Hfrom & t0 & Ht0 & Hst); [discriminate|].
          rewrite Hst. exists t, t0. rewrite <- Htgt. repeat split; auto.
    - rewrite Hqueue, Henc, Hmuxed. reflexivity. }
  destruct Hcases as [(Hlt & Hb & _)|[(Hge & p & Hp & Hb & _)|(Hge & e & He & _)]].
  - exists st', None. rewrite Henc, length_app. simpl.
    split; [exact Hb|]. split; [exact Hinv'|]. split; [lia|]. auto.
  - exists st', (Some ("Converting video"%string, p)).
    rewrite Henc, length_app. simpl.
    split; [exact Hb|]. split; [exact Hinv'|]. split; [lia|].
    split; [exact Hrate|].
    right. exists p. simpl in Hge, Hp.
    split; [reflexivity|]. split; [lia|]. exact Hp.
  - exfalso. simpl in Hge, He.
    destruct (progress_percent_defined export_from_index export_to_index
                (target_frame_idx (capture st))) as (p & Hp & _); [lia|lia|].
    congruence.
Qed.

(** The frame loop under its invariant: it returns, and what it leaves. *)
Lemma frame_loop_spec (fuel : nat) (st : loop_state) :
  inv st ->
  (passes_left ts st < fuel)%nat ->
  exists evs st',
    frame_loop process_frame fuel export_from_index export_to_index st
    = (evs, Returned, st')
    /\ (forall k f, encoded (video_stream st') !! k = Some f ->
                    rebased ts export_from_index k f)
    /\ muxed (target_container st') ++ waiting (video_stream st')
       = encoded (video_stream st')
    /\ rate (video_stream st') = rate (video_stream st)
    /\ Forall (event_at export_from_index export_to_index
                        (target_frame_idx (capture st))) evs
    /\ StronglySorted Qle (map percent evs)
    /\ (0 <= target_frame_idx (capture st) ->
        Z.of_nat (length (encoded (video_stream st')))
        = Z.of_nat (length (encoded (video_stream st)))
          + Z.max 0 (Z.min export_to_index (Z.of_nat (length ts) - 1) + 1
                     - target_frame_idx (capture st)))
    /\ (target_frame_idx (capture st) < 0 ->
        encoded (video_stream st') = encoded (video_stream st)).
Proof.
  revert st. induction fuel as [|fuel IH]; intros st Hinv Hfuel; [lia|].
  set (t := target_frame_idx (capture st)).
  destruct (Z_lt_le_dec t 0) as [Hneg|Hpos];
    [|destruct (Z_le_gt_dec (Z.of_nat (length ts)) t) as [Hend|Hin];
      [|destruct (Z_lt_le_dec export_to_index t) as [Hpast|Hto]]].
  1-3: destruct (body_stops st) as (st' & Hb & Hvs & Htc);
    [rewrite (inv_timestamps _ _ _ Hinv); fold t; lia|];
    exists [], st'; simpl; rewrite Hb, Htc, Hvs;
    split; [reflexivity|]; split; [apply (inv_frames _ _ _ Hinv)|];
    split; [apply (inv_muxed _ _ _ Hinv)|];
    split; [reflexivity|]; split; [apply List.Forall_nil|];
    split; [apply SSorted_nil|];
    split; [intros ?; subst t; lia|intros _; reflexivity].
  destruct (body_continues st Hinv) as (st1 & y & Hb & Hinv1 & Hlen1 & Hrate1 & Hy);
    [fold t; lia..|].
  assert (Ht1 : target_frame_idx (capture st1) = t + 1).
  { rewrite (inv_target _ _ _ Hinv1), Hlen1. unfold t.
    rewrite (inv_target _ _ _ Hinv). lia. }
  destruct (IH st1 Hinv1)
    as (evs & st' & Hloop & Hfr & Hmux & Hrate & Hevs & Hsorted & Hcount & _).
  { unfold passes_left in *. rewrite Ht1. fold t in Hfuel.
    destruct (Z.ltb_spec t 0); [lia|].
    destruct (Z.ltb_spec (t + 1) 0); lia. }
  exists (match y with Some ev => ev :: evs | None => evs end), st'.
  simpl. rewrite Hb, Hloop.
  split; [reflexivity|]. split; [exact Hfr|]. split; [exact Hmux|].
  split; [congruence|].
  assert (Hevs' : Forall (event_at export_from_index export_to_index t) evs).
  { eapply Forall_impl; [exact Hevs|]. simpl.
    intros ev (Hmsg & c & Hc & Hrest). split; [exact Hmsg|].
    exists c. split; [lia|exact Hrest]. }
  split; [|split; [|split]].
  - destruct Hy as [->|(p & -> & Hfrom & Hp)]; [exact Hevs'|].
    constructor; [|exact Hevs']. split; [reflexivity|].
    exists t. split; [lia|]. auto.
  - destruct Hy as [->|(p & -> & Hfrom & Hp)]; [exact Hsorted|].
    simpl. constructor; [exact Hsorted|].
    apply Forall_map. eapply Forall_impl; [exact Hevs|]. simpl.
    clear Hsorted Hevs' Hevs.
    intros ev' (_ & c' & Hc' & Hfrom' & Hp').
    apply (progress_percent_mono export_from_index export_to_index t c');
      auto; lia.
  - intros _. rewrite Hcount by lia. rewrite Hlen1, Ht1. fold t. lia.
  - fold t. lia.
Qed.

End Invariant.

(** ** Whole runs *)

Section Runs.

Variable range : Type.
Variable exact_window : list Q -> range -> Q * Q.
Variable find_closest : list Q -> Q * Q -> Z * Z.
Variable process_frame : File_Source -> Frame -> image.

Local Abbreviation export :=
  (export_processed_h264 range exact_window find_closest process_frame).

Lemma loop_entry_inv (v : Video) (from : Z) (env : Env) (dst : string) :
  loop_inv (video_timestamps v) from
    (loop_entry (File_Source_init (Some v)) from
       (configure env (File_Source_init (Some v))
                  (add_stream env "mpeg4" (1 / time_base)%Q))
       (av_open dst)
       {| planes0 := []; pts := 0; frame_time_base := time_base |}).
Proof.
  constructor; simpl; try reflexivity; try lia.
  - intros H. now contradiction H.
  - intros k f H. discriminate.
Qed.

(** A run whose source does not initialise. *)
Lemma run_uninitialised (env : Env) (world_timestamps : list Q)
      (src dst : string) (export_range : range) :
  video_at env src = None ->
  export env world_timestamps src dst export_range
  = {| events := [("Converting video"%string, 1 # 10);
                  ("Converting scene video failed"%string, 0%Q)];
       ended := Returned;
       source := File_Source_init None;
       stream := None; container := None |}.
Proof. intros Hv. unfold export_processed_h264. now rewrite Hv. Qed.

(** A run whose source initialises: it returns, and what it leaves. *)
Lemma run_initialised (env : Env) (world_timestamps : list Q)
      (src dst : string) (export_range : range) (v : Video) (from to : Z) :
  video_at env src = Some v ->
  find_closest (video_timestamps v)
               (exact_window world_timestamps export_range) = (from, to) ->
  exists evs vs tc,
    let run := export env world_timestamps src dst export_range in
    events run = ("Converting video"%string, 1 # 10) :: evs
                 ++ [("Converting video completed"%string, 100%Q)]
    /\ ended run = Returned
    /\ stream run = Some vs
    /\ container run = Some tc
    /\ closed tc = true
    /\ released (source run) = true
    /\ rate vs = 65535%Q
    /\ muxed tc = encoded vs
    /\ (forall k f, encoded vs !! k = Some f ->
                    rebased (video_timestamps v) from k f)
    /\ Forall (event_at from to from) evs
    /\ StronglySorted Qle (map percent evs)
    /\ (0 <= from ->
        Z.of_nat (length (encoded vs))
        = Z.max 0 (Z.min to (Z.of_nat (length (video_timestamps v)) - 1)
                   + 1 - from))
    /\ (from < 0 -> encoded vs = []).
Proof.
  intros Hv Hfc. unfold export_processed_h264. rewrite Hv.
  cbn [File_Source_init initialised negb timestamps]. rewrite Hfc.
  match goal with
  | |- context [frame_loop _ _ _ _ ?s] => set (st0 := s)
  end.
  destruct (frame_loop_spec process_frame (video_timestamps v) from to
              (S (length (video_timestamps v))) st0)
    as (evs & st' & Hloop & Hfr & Hmux & Hrate & Hevs & Hsorted & Hcount
        & Hnone).
  { apply (loop_entry_inv v from env dst). }
  { unfold passes_left, st0. simpl.
    destruct (Z.ltb_spec from 0); lia. }
  rewrite Hloop.
  destruct (flush_total (S (length (waiting (video_stream st'))))
                        (video_stream st') (target_container st'))
    as (vs & tc & Hflush & Hall); [lia|].
  rewrite Hflush.
  apply flush_encoded in Hflush as (Henc & Hrate' & Hwait).
  exists evs, vs, (close tc). simpl.
  split; [reflexivity|]. split; [reflexivity|]. split; [reflexivity|].
  split; [reflexivity|]. split; [reflexivity|]. split; [reflexivity|].
  split; [rewrite Hrate', Hrate; reflexivity|].
  split; [congruence|].
  rewrite Henc.
  split; [exact Hfr|]. split; [exact Hevs|]. split; [exact Hsorted|].
  split.
  - intros Hfrom. rewrite Hcount by exact Hfrom. simpl. lia.
  - intros Hfrom. now rewrite Hnone.
Qed.

End Runs.

(** ** The export pipeline *)

Lemma StronglySorted_nondecreasing (l : list Q) :
  StronglySorted Qle l -> nondecreasing l.
Proof.
  induction 1 as [|a l Hs IH Ha]; intros i j x y Hij Hi Hj.
  - discriminate.
  - destruct i as [|i], j as [|j]; simpl in Hi, Hj.
    + injection Hi as <-. injection Hj as <-. apply Qle_refl.
    + injection Hi as <-. rewrite Forall_forall in Ha.
      apply Ha. now apply (list_elem_of_lookup_2 l j).
    + lia.
    + apply (IH i j); auto; lia.
Qed.

Lemma StronglySorted_snoc (l : list Q) (top : Q) :
  StronglySorted Qle l ->
  Forall (fun p => (p <= top)%Q) l ->
  StronglySorted Qle (l ++ [top]).
Proof.
  induction 1 as [|a l Hs IH Ha]; intros Htop; simpl.
  - apply SSorted_cons; [apply SSorted_nil|apply List.Forall_nil].
  - inversion Htop as [|? ? Hp Hrest]; subst.
    apply SSorted_cons; [now apply IH|].
    apply Forall_app. split; [exact Ha|].
    apply List.Forall_cons; [exact Hp|apply List.Forall_nil].
Qed.

Lemma rebased_first (ts : list Q) (from : Z) (f : VideoFrame) :
  rebased ts from 0 f -> pts f = 0.
Proof.
  intros (tk & t0 & Hk & H0 & Hpts & _).
  simpl in Hk. rewrite Z.add_0_r in Hk.
  assert (tk = t0) as -> by congruence.
  rewrite Hpts. apply int_of_zero_num.
  destruct t0 as [n d]. simpl. lia.
Qed.

Section Claims.

Variable range : Type.
Variable exact_window : list Q -> range -> Q * Q.
Variable find_closest : list Q -> Q * Q -> Z * Z.
Variable process_frame : File_Source -> Frame -> image.

Local Abbreviation export :=
  (export_processed_h264 range exact_window find_closest process_frame).

Lemma initialised_video (env : Env) (src : string) :
  initialised (File_Source_init (video_at env src)) = true ->
  exists v, video_at env src = Some v.
Proof. destruct (video_at env src); [eauto|discriminate]. Qed.

(** C1. When the source adapter initialises, the resolved range has
    [export_from_index <= export_to_index] and the source delivers a
    frame at every index of the range, the run returns and exactly
    [export_to_index - export_from_index + 1] frames are encoded, the one
    at [export_to_index] included; the closed container holds these
    frames and no other. *)
Theorem export_encodes_inclusive_range
    (env : Env) (world_timestamps : list Q) (src dst : string)
    (export_range : range) (export_from_index export_to_index : Z) :
  let cap := File_Source_init (video_at env src) in
  initialised cap = true ->
  find_closest (timestamps cap)
               (exact_window world_timestamps export_range)
  = (export_from_index, export_to_index) ->
  export_from_index <= export_to_index ->
  (forall i, export_from_index <= i <= export_to_index ->
             exists frame cap',
               get_frame (seek_to_frame cap i) = inr (frame, cap')) ->
  let run := export env world_timestamps src dst export_range in
  ended run = Returned
  /\ exists vs,
       stream run = Some vs
       /\ Z.of_nat (length (encoded vs))
          = export_to_index - export_from_index + 1
       /\ (exists f,
             encoded vs !! Z.to_nat (export_to_index - export_from_index)
             = Some f
             /\ rebased (timestamps cap) export_from_index
                        (Z.to_nat (export_to_index - export_from_index)) f)
       /\ exists tc,
            container run = Some tc
            /\ closed tc = true
            /\ muxed tc = encoded vs.
Proof.
  intros cap Hinit Hfc Hle Hdeliver run.
  destruct (initialised_video env src Hinit) as [v Hv].
  subst cap run. rewrite Hv in *. simpl in Hfc, Hdeliver |- *.
  destruct (run_initialised range exact_window find_closest process_frame
              env world_timestamps src dst export_range v
              export_from_index export_to_index Hv Hfc)
    as (evs & vs & tc & Hev & Hend & Hst & Hct & Hclosed & _ & _ & Hmux
        & Hfr & _ & _ & Hcount & _).
  simpl in Hend, Hst, Hct.
  destruct (Hdeliver export_from_index) as (f1 & c1 & Hg1); [lia|].
  destruct (Hdeliver export_to_index) as (f2 & c2 & Hg2); [lia|].
  apply get_frame_inv in Hg1 as (Hpos & _).
  apply get_frame_inv in Hg2 as (_ & Hts & _).
  simpl in Hpos, Hts. apply lookup_lt_Some in Hts.
  assert (Hlen : Z.of_nat (length (encoded vs))
                 = export_to_index - export_from_index + 1)
    by (rewrite Hcount by exact Hpos; lia).
  split; [exact Hend|]. exists vs. split; [exact Hst|].
  split; [exact Hlen|].
  destruct (lookup_lt_is_Some_2 (encoded vs)
              (Z.to_nat (export_to_index - export_from_index)))
    as [f Hf]; [lia|].
  split; [exists f; split; [exact Hf|now apply Hfr]|].
  exists tc. auto.
Qed.

(** C2. Whenever a run encodes at least one frame, the presentation
    timestamp of the first encoded frame is 0, whatever the window and
    wherever it lies in the source recording. *)
Theorem first_pts_is_zero
    (env : Env) (world_timestamps : list Q) (src dst : string)
    (export_range : range) (vs : VideoStream) (f : VideoFrame) :
  stream (export env world_timestamps src dst export_range) = Some vs ->
  head (encoded vs) = Some f ->
  pts f = 0.
Proof.
  destruct (video_at env src) as [v|] eqn:Hv.
  - destruct (find_closest (video_timestamps v)
                (exact_window world_timestamps export_range))
      as [from to] eqn:Hfc.
    destruct (run_initialised range exact_window find_closest process_frame
                env world_timestamps src dst export_range v from to Hv Hfc)
      as (evs & vs' & tc & _ & _ & Hst & _ & _ & _ & _ & _ & Hfr & _).
    simpl in Hst. rewrite Hst. intros [= <-] Hhead.
    apply (rebased_first (video_timestamps v) from). apply Hfr.
    now rewrite <- head_lookup.
  - rewrite run_uninitialised by exact Hv. discriminate.
Qed.


(** C4. When the source adapter fails to initialise, the generator
    yields the liveness event, then a failure event at percent 0, and
    returns: nothing is encoded, no container is opened and the run does
    not end in an exception. *)
Theorem init_failure_is_reported
    (env : Env) (world_timestamps : list Q) (src dst : string)
    (export_range : range) :
  initialised (File_Source_init (video_at env src)) = false ->
  let run := export env world_timestamps src dst export_range in
  events run = [("Converting video"%string, 1 # 10);
                ("Converting scene video failed"%string, 0%Q)]
  /\ last (events run) = Some ("Converting scene video failed"%string, 0%Q)
  /\ ended run = Returned
  /\ stream run = None
  /\ container run = None.
Proof.
  intros Hinit run. subst run.
  destruct (video_at env src) as [v|] eqn:Hv; [discriminate|].
  rewrite run_uninitialised by exact Hv. repeat split.
Qed.

(** C5, as amended. When the source adapter initialises, the run returns,
    the percent values of its events never go down, and its last event is
    the completion event at exactly 100. *)
Theorem progress_nondecreasing_when_initialised
    (env : Env) (world_timestamps : list Q) (src dst : string)
    (export_range : range) :
  initialised (File_Source_init (video_at env src)) = true ->
  let run := export env world_timestamps src dst export_range in
  nondecreasing (map percent (events run))
  /\ ended run = Returned
  /\ last (events run) = Some ("Converting video completed"%string, 100%Q).
Proof.
  intros Hinit run. subst run.
  destruct (initialised_video env src Hinit) as [v Hv].
  destruct (find_closest (video_timestamps v)
              (exact_window world_timestamps export_range))
    as [from to] eqn:Hfc.
  destruct (run_initialised range exact_window find_closest process_frame
              env world_timestamps src dst export_range v from to Hv Hfc)
    as (evs & vs & tc & Hev & Hend & _ & _ & _ & _ & _ & _ & _ & Hat & Hsorted & _).
  simpl in Hev, Hend. rewrite Hev. split; [|split; [exact Hend|]].
  - apply StronglySorted_nondecreasing. simpl. rewrite map_app. simpl.
    assert (Hbounds : Forall (fun p => (10 <= p)%Q /\ (p <= 100)%Q)
                             (map percent evs)).
    { apply Forall_map. eapply Forall_impl; [exact Hat|]. simpl.
      intros ev (_ & c & Hc & Hfrom & Hp).
      destruct (progress_percent_defined from to c) as (p & Hp' & Hlo & Hhi);
        [lia|lia|].
      assert (p = percent ev) as <- by congruence. auto. }
    apply SSorted_cons.
    + apply StronglySorted_snoc; [exact Hsorted|].
      eapply Forall_impl; [exact Hbounds|]. simpl. now intros p [_ Hp].
    + apply Forall_app. split.
      * eapply Forall_impl; [exact Hbounds|]. simpl. intros p [Hp _]. lra.
      * apply List.Forall_cons; [|apply List.Forall_nil]. unfold Qle; simpl; lia.
  - rewrite app_comm_cons. apply last_snoc.
Qed.

(** C6. Every event of every run carries a percent value between 0 and
    100; the events of the frame loop lie between 10 and 100. *)
Theorem percent_within_bounds
    (env : Env) (world_timestamps : list Q) (src dst : string)
    (export_range : range) :
  Forall (fun ev => (0 <= percent ev)%Q /\ (percent ev <= 100)%Q)
         (events (export env world_timestamps src dst export_range)).
Proof.
  destruct (video_at env src) as [v|] eqn:Hv.
  - destruct (find_closest (video_timestamps v)
                (exact_window world_timestamps export_range))
      as [from to] eqn:Hfc.
    destruct (run_initialised range exact_window find_closest process_frame
                env world_timestamps src dst export_range v from to Hv Hfc)
      as (evs & vs & tc & Hev & _ & _ & _ & _ & _ & _ & _ & _ & Hat & _).
    simpl in Hev. rewrite Hev.
    apply List.Forall_cons; [unfold percent, Qle; simpl; lia|].
    apply Forall_app. split.
    + eapply Forall_impl; [exact Hat|]. simpl.
      intros ev (_ & c & Hc & Hfrom & Hp).
      destruct (progress_percent_defined from to c) as (p & Hp' & Hlo & Hhi);
        [lia|lia|].
      assert (p = percent ev) as <- by congruence. split; lra.
    + apply List.Forall_cons; [|apply List.Forall_nil]. unfold percent, Qle; simpl; lia.
  - rewrite run_uninitialised by exact Hv. simpl.
    apply List.Forall_cons; [unfold percent, Qle; simpl; lia|].
    apply List.Forall_cons; [unfold percent, Qle; simpl; lia|apply List.Forall_nil].
Qed.

End Claims.

(** ** The division in the progress expression *)

Section Division.

Variable process_frame : File_Source -> Frame -> image.
Variables export_from_index export_to_index : Z.

Local Abbreviation body :=
  (loop_body process_frame export_from_index export_to_index).

Lemma body_next (st st' : loop_state) (y : option ProgressEvent) :
  body st = Continue st' y -> next_update_idx st <= next_update_idx st'.
Proof.
  unfold loop_body.
  destruct (get_frame (capture st)) as [e|[frame cap]];
    [destruct e; discriminate|].
  destruct (index frame >? export_to_index); [discriminate|].
  match goal with
  | |- context [encode ?a ?b] => destruct (encode a b) as [packet vs]
  end.
  destruct (current_frame_idx cap >=? next_update_idx st);
    [destruct (progress_percent _ _ _); [discriminate|]|];
    intros [= <- <-]; simpl; unfold update_rate; lia.
Qed.

Lemma passes_next (n : nat) (st st' : loop_state) :
  passes process_frame n export_from_index export_to_index st = Some st' ->
  next_update_idx st <= next_update_idx st'.
Proof.
  revert st. induction n as [|n IH]; intros st; simpl.
  - intros [= <-]. lia.
  - destruct (body st) as [|st1 y|] eqn:Hb; try discriminate.
    intros H. apply IH in H. apply body_next in Hb. lia.
Qed.

(** [reaches_division] holds of exactly those passes that evaluate the
    progress expression: the ones that yield an event and the ones that
    raise. *)
Lemma reaches_division_spec (st : loop_state) :
  reaches_division export_to_index st = true
  <-> (exists st' ev, body st = Continue st' (Some ev))
      \/ (exists e st', body st = Raise e st').
Proof.
  unfold reaches_division, loop_body.
  destruct (get_frame (capture st)) as [e|[frame cap]] eqn:Hg.
  - apply get_frame_end in Hg as ->. split; [discriminate|].
    intros [(? & ? & ?)|(? & ? & ?)]; discriminate.
  - destruct (index frame >? export_to_index); cbn [negb andb].
    + split; [discriminate|].
      intros [(? & ? & ?)|(? & ? & ?)]; discriminate.
    + match goal with
      | |- context [encode ?a ?b] => destruct (encode a b) as [packet vs]
      end.
      destruct (current_frame_idx cap >=? next_update_idx st).
      * split; [intros _|reflexivity].
        destruct (progress_percent _ _ _); eauto.
      * split; [discriminate|].
        intros [(? & ? & ?)|(? & ? & ?)]; discriminate.
Qed.

(** C9. In every state the frame loop can reach, a pass that evaluates the
    progress expression finds [export_to_index - export_from_index] at
    least [update_rate], hence strictly positive: the division is
    defined and the pass does not raise.  A range of a single frame never
    evaluates it. *)
Theorem division_denominator_positive
    (cap : File_Source) (vs : VideoStream) (tc : Container)
    (fr : VideoFrame) (n : nat) (st : loop_state) :
  passes process_frame n export_from_index export_to_index
         (loop_entry cap export_from_index vs tc fr) = Some st ->
  reaches_division export_to_index st = true ->
  0 < export_to_index - export_from_index
  /\ update_rate <= export_to_index - export_from_index
  /\ forall e st', body st <> Raise e st'.
Proof.
  intros Hpasses Hreach. apply passes_next in Hpasses. simpl in Hpasses.
  unfold reaches_division in Hreach.
  destruct (get_frame (capture st)) as [e|[frame cap']] eqn:Hg;
    [discriminate|].
  apply andb_prop in Hreach as [Hin Hup].
  destruct (Z.gtb_spec (index frame) export_to_index) as [|Hle];
    [discriminate|].
  destruct (Z.geb_spec (current_frame_idx cap') (next_update_idx st))
    as [Hge|]; [|discriminate].
  pose proof Hg as Hg'.
  apply get_frame_inv in Hg' as (_ & _ & Hidx & ->). simpl in Hge.
  unfold update_rate in *.
  split; [lia|]. split; [lia|].
  intros e st' Hraise.
  destruct (body_frame process_frame export_from_index export_to_index
                       st frame _ Hg Hle)
    as (st1 & _ & _ & _ & _ & _ & _
        & [(_ & Hb & _)|[(_ & p & _ & Hb & _)|(_ & e1 & He1 & _)]]).
  - congruence.
  - congruence.
  - simpl in He1.
    destruct (progress_percent_defined export_from_index export_to_index
                (target_frame_idx (capture st))) as (p & Hp & _);
      unfold update_rate; [lia|lia|congruence].
Qed.

End Division.

(** ** The pipeline on the sample recording *)

(** Five frames, the window from the second to the fourth: the range is
    [(1, 3)] and three frames are encoded. *)
Lemma export_encodes_inclusive_range_witness :
  exists vs,
    stream (Sample.export 5 "/rec/world.mp4"
                          (5 + (1 # 30), 5 + (3 # 30))%Q) = Some vs
    /\ Z.of_nat (length (encoded vs)) = 3 - 1 + 1.
Proof.
  destruct (export_encodes_inclusive_range (Q * Q) Resolver.exact_window
              Resolver.find_closest Sample.keep (Sample.host 5)
              (Sample.stamps 5) "/rec/world.mp4" "/exports/scene.mp4"
              (5 + (1 # 30), 5 + (3 # 30))%Q 1 3)
    as (_ & vs & Hst & Hlen & _).
  - vm_compute. reflexivity.
  - vm_compute. reflexivity.
  - lia.
  - intros i Hi.
    assert (Hcases : i = 1 \/ i = 2 \/ i = 3) by lia.
    destruct Hcases as [-> | [-> | ->]]; vm_compute; eauto.
  - exists vs. split; [exact Hst|exact Hlen].
Defined.

Lemma first_pts_is_zero_witness :
  exists vs f,
    stream (Sample.export 5 "/rec/world.mp4"
                          (5 + (1 # 30), 5 + (3 # 30))%Q) = Some vs
    /\ head (encoded vs) = Some f
    /\ pts f = 0.
Proof.
  eexists. eexists.
  split; [vm_compute; reflexivity|].
  split; [vm_compute; reflexivity|].
  eapply (first_pts_is_zero (Q * Q) Resolver.exact_window
            Resolver.find_closest Sample.keep (Sample.host 5)
            (Sample.stamps 5) "/rec/world.mp4" "/exports/scene.mp4"
            (5 + (1 # 30), 5 + (3 # 30))%Q).
  - vm_compute. reflexivity.
  - vm_compute. reflexivity.
Defined.


(** No file is stored as [/rec/eye0.mp4]. *)
Lemma init_failure_is_reported_witness :
  events (Sample.export 5 "/rec/eye0.mp4" (5, 6)%Q)
  = [("Converting video"%string, 1 # 10);
     ("Converting scene video failed"%string, 0%Q)]
  /\ ended (Sample.export 5 "/rec/eye0.mp4" (5, 6)%Q) = Returned.
Proof.
  destruct (init_failure_is_reported (Q * Q) Resolver.exact_window
              Resolver.find_closest Sample.keep (Sample.host 5)
              (Sample.stamps 5) "/rec/eye0.mp4" "/exports/scene.mp4"
              (5, 6)%Q)
    as (Hev & _ & Hend & _).
  - vm_compute. reflexivity.
  - split; [exact Hev|exact Hend].
Defined.

(** C5, as stated, fails: in a run whose source does not initialise the
    liveness event at 0.1 is followed by the failure event at 0. *)
Lemma progress_drops_on_init_failure :
  ~ nondecreasing
      (map percent (events (Sample.export 5 "/rec/eye0.mp4" (5, 6)%Q))).
Proof.
  intros H. specialize (H 0%nat 1%nat (1 # 10) 0%Q).
  assert (Hle : (1 # 10 <= 0)%Q).
  { apply H; [lia|vm_compute; reflexivity|vm_compute; reflexivity]. }
  unfold Qle in Hle. simpl in Hle. lia.
Qed.

Lemma progress_nondecreasing_when_initialised_witness :
  nondecreasing
    (map percent (events (Sample.export 30 "/rec/world.mp4" (5, 6)%Q)))
  /\ last (events (Sample.export 30 "/rec/world.mp4" (5, 6)%Q))
     = Some ("Converting video completed"%string, 100%Q).
Proof.
  destruct (progress_nondecreasing_when_initialised (Q * Q)
              Resolver.exact_window Resolver.find_closest Sample.keep
              (Sample.host 30) (Sample.stamps 30) "/rec/world.mp4"
              "/exports/scene.mp4" (5, 6)%Q)
    as (Hmono & _ & Hlast).
  - vm_compute. reflexivity.
  - split; [exact Hmono|exact Hlast].
Defined.

(** Thirty frames and the range [(0, 29)]: the eleventh pass is the first
    to evaluate the progress expression. *)
Lemma division_denominator_positive_witness :
  0 < 29 - 0 /\ update_rate <= 29 - 0.
Proof.
  destruct (division_denominator_positive Sample.keep 0 29
              (File_Source_init (Some (Sample.clip 30)))
              (configure (Sample.host 30)
                         (File_Source_init (Some (Sample.clip 30)))
                         (add_stream (Sample.host 30) "mpeg4"
                                     (1 / time_base)%Q))
              (av_open "/exports/scene.mp4")
              {| planes0 := []; pts := 0; frame_time_base := time_base |}
              10
              (default (Sample.entry 30 0)
                       (passes Sample.keep 10 0 29 (Sample.entry 30 0))))
    as (Hpos & Hrate & _).
  - vm_compute. reflexivity.
  - vm_compute. reflexivity.
  - split; [exact Hpos|exact Hrate].
Defined.

(** ** Starting an export job *)

Section Jobs.

Variable range : Type.
Variable exact_window : list Q -> range -> Q * Q.
Variable find_closest : list Q -> Q * Q -> Z * Z.

Local Abbreviation add_job :=
  (add_export_job range exact_window find_closest).

(** C7, on the code. When the metadata of the recording can be read and
    no file found by [glob] carries an accepted extension, the call to
    [add_export_job] raises [IndexError]: no task is registered, so no
    progress event will ever report the failure. *)
Theorem add_export_job_without_source
    (self : VideoExporter range) (disk : Disk) (export_range : range)
    (export_dir plugin_name input_name output_name rec_start : string)
    (process_frame : File_Source -> Frame -> image) :
  get_recording_start_date range self disk = inr rec_start ->
  List.filter Py.accepted
    (glob disk (Py.join (rec_dir (g_pool range self))
                        (input_name ++ ".*")%string)) = [] ->
  let '(result, self', disk') :=
    add_job self disk export_range export_dir plugin_name input_name
            output_name process_frame in
  result = inl IndexError
  /\ export_tasks range self' = export_tasks range self.
Proof.
  intros Hdate Hglob. unfold add_export_job. rewrite Hdate. simpl.
  rewrite Hglob. split; reflexivity.
Qed.


End Jobs.

Lemma add_export_job_without_source_witness :
  fst (fst (Sample.job (Sample.disk ["/rec/world.txt"%string] true)))
  = inl IndexError
  /\ export_tasks (Q * Q)
       (snd (fst (Sample.job (Sample.disk ["/rec/world.txt"%string] true))))
     = [].
Proof.
  pose proof (add_export_job_without_source (Q * Q) Resolver.exact_window
                Resolver.find_closest Sample.plugin
                (Sample.disk ["/rec/world.txt"%string] true) (5, 6)%Q
                "/exports/000" "iMotions" "world" "scene"
                "12_03_2018_10_15_00" Sample.keep) as H.
  fold (Sample.job (Sample.disk ["/rec/world.txt"%string] true)) in H.
  destruct (Sample.job (Sample.disk ["/rec/world.txt"%string] true))
    as [[result self'] disk'].
  apply H.
  - vm_compute. reflexivity.
  - vm_compute. reflexivity.
Defined.



(** ** Polling the tasks *)

Section Polling.

Variable range : Type.

Local Abbreviation poll := (poll_task range).
Local Abbreviation poll_all := (poll_tasks range).

Lemma poll_task_quiet (shown : string * Q) (task : Task_Proxy range) :
  fst (fetch range task) = [] -> canceled range task = false ->
  fst (poll shown task) = shown.
Proof.
  unfold poll_task, fetch. simpl. intros -> ->. reflexivity.
Qed.

Lemma poll_task_takes_last (shown : string * Q) (task : Task_Proxy range)
      (ev : ProgressEvent) :
  last (fst (fetch range task)) = Some ev -> canceled range task = false ->
  fst (poll shown task) = ev.
Proof.
  unfold poll_task, fetch. simpl. intros -> ->. reflexivity.
Qed.

Lemma poll_task_canceled (shown : string * Q) (task : Task_Proxy range) :
  canceled range task = true ->
  fst (poll shown task) = ("Export has been canceled"%string, 0%Q).
Proof.
  unfold poll_task, fetch. simpl. intros ->. reflexivity.
Qed.

(** The fields change in a pass only if events arrived or the task was
    cancelled. *)
Lemma poll_task_overwrites (shown : string * Q) (task : Task_Proxy range) :
  fst (poll shown task) <> shown ->
  fst (fetch range task) <> [] \/ canceled range task = true.
Proof.
  intros Hchanged. destruct (canceled range task) eqn:Hc; [now right|].
  left. intros Hnone. apply Hchanged. now apply poll_task_quiet.
Qed.

Lemma poll_tasks_cons (shown : string * Q) (name : string)
      (task : Task_Proxy range) (rest : list (string * Task_Proxy range)) :
  fst (poll_all shown ((name, task) :: rest))
  = fst (poll_all (fst (poll shown task)) rest).
Proof.
  cbn [poll_tasks]. destruct (poll shown task) as [shown1 task'].
  cbn [fst]. destruct (poll_all shown1 rest). reflexivity.
Qed.

Lemma poll_tasks_app (shown : string * Q)
      (l1 l2 : list (string * Task_Proxy range)) :
  fst (poll_all shown (l1 ++ l2))
  = fst (poll_all (fst (poll_all shown l1)) l2).
Proof.
  revert shown. induction l1 as [|[name task] l1 IH]; intros shown.
  - reflexivity.
  - cbn [app]. rewrite !poll_tasks_cons. apply IH.
Qed.

Lemma recent_events_shown (self : VideoExporter range) :
  (status range (recent_events range self),
   progress range (recent_events range self))
  = fst (poll_all (status range self, progress range self)
                  (export_tasks range self)).
Proof.
  unfold recent_events.
  destruct (poll_all _ _) as [[s p] tasks]. reflexivity.
Qed.

(** When no tracked task has new events or was cancelled, a call changes
    neither field. *)
Lemma recent_events_all_quiet (self : VideoExporter range) :
  Forall (fun entry => fst (fetch range (snd entry)) = []
                       /\ canceled range (snd entry) = false)
         (export_tasks range self) ->
  status range (recent_events range self) = status range self
  /\ progress range (recent_events range self) = progress range self.
Proof.
  intros Hquiet.
  assert (H : fst (poll_all (status range self, progress range self)
                            (export_tasks range self))
              = (status range self, progress range self)).
  { generalize (status range self, progress range self) as shown.
    induction Hquiet as [|[name task] l [Hf Hc] _ IH]; intros shown.
    - reflexivity.
    - rewrite poll_tasks_cons.
      rewrite (poll_task_quiet shown task Hf Hc). apply IH. }
  rewrite <- recent_events_shown in H. now injection H.
Qed.


End Polling.



(** * Further properties *)

(** ** Index lists *)

Lemma indices_nil (first last : Z) : last < first -> indices first last = [].
Proof. intros H. unfold indices. apply seqZ_nil. lia. Qed.

Lemma indices_cons (first last : Z) :
  first <= last -> indices first last = first :: indices (first + 1) last.
Proof.
  intros H. unfold indices. rewrite seqZ_cons by lia.
  f_equal. f_equal; lia.
Qed.

Lemma update_indices_nil (first last : Z) :
  last < first -> update_indices first last = [].
Proof.
  intros H. unfold update_indices, update_rate.
  rewrite seqZ_nil; [reflexivity|].
  assert ((last - first + 10) / 10 < 1); [|lia].
  apply Z.div_lt_upper_bound; lia.
Qed.

Lemma update_indices_cons (first last : Z) :
  first <= last ->
  update_indices first last
  = first :: update_indices (first + update_rate) last.
Proof.
  intros H. unfold update_indices, update_rate.
  replace (last - first + 10) with ((last - first) + 1 * 10) by lia.
  rewrite Z.div_add by lia.
  replace (last - (first + 10) + 10) with (last - first) by lia.
  assert (Hq : 0 <= (last - first) / 10) by (apply Z.div_pos; lia).
  rewrite seqZ_cons by lia. rewrite fmap_cons.
  f_equal; [lia|].
  replace (Z.pred ((last - first) / 10 + 1)) with ((last - first) / 10) by lia.
  rewrite <- (fmap_add_seqZ 1 0). rewrite <- list_fmap_compose.
  apply list_fmap_ext. intros _ j _. simpl. lia.
Qed.

Lemma elem_of_update_indices (first last c : Z) :
  c ∈ update_indices first last
  <-> first <= c <= last /\ (c - first) mod update_rate = 0.
Proof.
  unfold update_indices, update_rate. rewrite list_elem_of_fmap.
  setoid_rewrite elem_of_seqZ. split.
  - intros (j & -> & Hj). 
    assert (Hq : j < (last - first + 10) / 10) by lia.
    assert (10 * j <= last - first).
    { pose proof (Z.mul_div_le (last - first + 10) 10). nia. }
    split; [lia|].
    replace (first + 10 * j - first) with (j * 10) by lia.
    apply Z.mod_mul. lia.
  - intros [Hc Hmod]. exists ((c - first) / 10).
    pose proof (Z.div_mod (c - first) 10). 
    split; [lia|]. split; [apply Z.div_pos; lia|].
    simpl. apply Z.div_lt_upper_bound; [lia|].
    pose proof (Z.mul_div_le (last - first + 10) 10).
    pose proof (Z.mod_pos_bound (last - first + 10) 10).
    pose proof (Z.div_mod (last - first + 10) 10).
    lia.
Qed.

Lemma length_update_indices (first last : Z) :
  first <= last ->
  Z.of_nat (length (update_indices first last))
  = (last - first) / update_rate + 1.
Proof.
  intros H. unfold update_indices, update_rate.
  rewrite length_fmap, length_seqZ.
  replace (last - first + 10) with ((last - first) + 1 * 10) by lia.
  rewrite Z.div_add by lia.
  assert (0 <= (last - first) / 10) by (apply Z.div_pos; lia). lia.
Qed.

(** ** The frame loop in closed form *)

Lemma same_source_advance (c c' : File_Source) (i : Z) :
  same_source c c' -> advance c i = advance c' i.
Proof.
  intros (H1 & H2 & H3 & H4 & H5). unfold advance.
  rewrite H1, H2, H3, H4, H5. reflexivity.
Qed.

Lemma same_source_get_frame (c cap : File_Source) :
  same_source c cap ->
  0 <= target_frame_idx c ->
  target_frame_idx c < Z.of_nat (length (timestamps cap)) ->
  get_frame c
  = inr (frame_at cap (target_frame_idx c), advance cap (target_frame_idx c)).
Proof.
  intros Hsame Hpos Hlen.
  destruct (lookup_lt_is_Some_2 (timestamps cap)
              (Z.to_nat (target_frame_idx c))) as [t Ht]; [lia|].
  pose proof Hsame as (_ & Hts & _ & Hpic & _).
  rewrite (get_frame_some c t Hpos) by (rewrite Hts; exact Ht).
  rewrite (same_source_advance c cap _ Hsame).
  unfold frame_at, stamp. rewrite Ht, Hpic. reflexivity.
Qed.

Lemma progress_percent_at (from to c : Z) :
  to - from <> 0 ->
  progress_percent from to c = inr (percent_at from to c).
Proof.
  intros H. unfold progress_percent, true_div, percent_at.
  destruct (Z.eqb_spec (to - from) 0); [contradiction|reflexivity].
Qed.

Lemma same_config_refl (s : VideoStream) : same_config s s.
Proof. repeat split. Qed.

Lemma same_config_trans (s1 s2 s3 : VideoStream) :
  same_config s1 s2 -> same_config s2 s3 -> same_config s1 s3.
Proof.
  unfold same_config. intros H12 H23.
  destruct H12 as (?&?&?&?&?&?&?&?), H23 as (?&?&?&?&?&?&?&?).
  repeat split; congruence.
Qed.

Lemma encode_same_config (f : option VideoFrame) (s : VideoStream) :
  same_config (snd (encode f s)) s.
Proof.
  unfold encode. destruct f as [fr|].
  - destruct (latency s <? length (waiting s ++ [fr]))%nat;
      [destruct (waiting s ++ [fr])|]; repeat split.
  - destruct (waiting s); repeat split.
Qed.

Lemma flush_same_config (fuel : nat) (vs vs' : VideoStream)
      (tc tc' : Container) :
  flush fuel vs tc = Some (vs', tc') ->
  same_config vs' vs /\ location tc' = location tc /\ closed tc' = closed tc.
Proof.
  revert vs tc. induction fuel as [|fuel IH]; intros vs tc; cbn [flush].
  - discriminate.
  - pose proof (encode_same_config None vs) as Hc.
    destruct (encode None vs) as [[p|] vs1]; cbn [snd] in Hc.
    + intros H. apply IH in H as (H1 & H2 & H3). simpl in H2, H3.
      split; [eapply same_config_trans; eassumption|]. auto.
    + intros [= <- <-]. auto.
Qed.

Section Trace.

Variable process_frame : File_Source -> Frame -> image.
Variable cap : File_Source.
Variables export_from_index export_to_index : Z.

Local Abbreviation body :=
  (loop_body process_frame export_from_index export_to_index).
Local Abbreviation last := (last_index cap export_to_index).

Lemma body_same_config (st st' : loop_state) (y : option ProgressEvent) :
  body st = Continue st' y ->
  same_config (video_stream st') (video_stream st)
  /\ location (target_container st') = location (target_container st)
  /\ closed (target_container st') = closed (target_container st).
Proof.
  unfold loop_body.
  destruct (get_frame (capture st)) as [e|[frame cap']];
    [destruct e; discriminate|].
  destruct (index frame >? export_to_index); [discriminate|].
  match goal with
  | |- context [encode ?a ?b] =>
      pose proof (encode_same_config a b) as Hc;
      destruct (encode a b) as [packet vs]
  end.
  simpl in Hc.
  destruct (current_frame_idx cap' >=? next_update_idx st);
    [destruct (progress_percent _ _ _); [discriminate|]|];
    intros [= <- <-]; simpl; (split; [exact Hc|]); destruct packet; auto.
Qed.

(** One pass that processes a frame. *)
Lemma trace_step (st : loop_state) :
  trace_inv cap export_from_index st ->
  target_frame_idx (capture st) <= last ->
  exists st',
    trace_inv cap export_from_index st'
    /\ encoded (video_stream st')
       = encoded (video_stream st)
         ++ [output_frame process_frame cap export_from_index
                          (target_frame_idx (capture st))]
    /\ target_frame_idx (capture st') = target_frame_idx (capture st) + 1
    /\ ((target_frame_idx (capture st) < next_update_idx st
         /\ body st = Continue st' None
         /\ next_update_idx st' = next_update_idx st)
        \/ (target_frame_idx (capture st) = next_update_idx st
            /\ body st
               = Continue st'
                   (Some (progress_event export_from_index export_to_index
                                         (target_frame_idx (capture st))))
            /\ next_update_idx st' = next_update_idx st + update_rate)).
Proof.
  intros [Hsrc Hfrom Htgt Htb Hfresh Horigin Hdue (j & Hj & Hnext)] Hlast.
  set (t := target_frame_idx (capture st)) in *.
  unfold last_index in Hlast.
  assert (Hpos : 0 <= t) by lia.
  pose proof (same_source_get_frame (capture st) cap Hsrc Hpos) as Hg.
  fold t in Hg. specialize (Hg ltac:(lia)).
  destruct (body_frame process_frame export_from_index export_to_index
                       st _ _ Hg)
    as (st' & Hcap & Hstart & Henc & _ & Htb' & _ & Hcases); [simpl; lia|].
  assert (Hsent : frame_sent process_frame st (frame_at cap t) (advance cap t)
                  = output_frame process_frame cap export_from_index t).
  { unfold frame_sent, output_frame. rewrite Htb. f_equal.
    destruct (encoded (video_stream st)) as [|f0 enc] eqn:Hold.
    - rewrite (Hfresh eq_refl). simpl in Htgt. rewrite Z.add_0_r in Htgt.
      rewrite <- Htgt. reflexivity.
    - rewrite Horigin by discriminate. reflexivity. }
  rewrite Hsent in Henc.
  assert (Hinv : forall n,
             t + 1 <= n ->
             (exists j', 1 <= j' /\ n = export_from_index + update_rate * j') ->
             next_update_idx st' = n ->
             trace_inv cap export_from_index st').
  { intros n Hn Hjn Hnn. constructor.
    - rewrite Hcap. repeat split.
    - exact Hfrom.
    - rewrite Hcap, Henc, length_app. simpl. fold t. lia.
    - congruence.
    - rewrite Henc. intros H. now apply app_eq_nil in H as [_ H].
    - intros _. rewrite Hstart.
      destruct (encoded (video_stream st)) as [|f0 enc] eqn:Hold.
      + rewrite (Hfresh eq_refl). simpl in Htgt |- *.
        rewrite Z.add_0_r in Htgt. rewrite <- Htgt. reflexivity.
      + rewrite Horigin by discriminate. reflexivity.
    - rewrite Hcap, Hnn. simpl. lia.
    - rewrite Hnn. exact Hjn. }
  simpl in Hcases.
  destruct Hcases as [(Hlt & Hb & Hn)|[(Hge & p & Hp & Hb & Hn)|(Hge & e & He & _)]].
  - exists st'. split.
    { apply (Hinv (next_update_idx st)); [lia|eauto|exact Hn]. }
    split; [exact Henc|]. split; [rewrite Hcap; reflexivity|].
    left. auto.
  - unfold update_rate in *.
    rewrite progress_percent_at in Hp by lia. injection Hp as <-.
    exists st'. split.
    { apply (Hinv (next_update_idx st + 10)); [lia| |exact Hn].
      exists (j + 1). split; lia. }
    split; [exact Henc|]. split; [rewrite Hcap; reflexivity|].
    right. split; [lia|]. split; [exact Hb|exact Hn].
  - unfold update_rate in *.
    rewrite progress_percent_at in He by lia. discriminate.
Qed.

(** The frame loop: the frames it encodes and the events it yields. *)
Lemma frame_loop_trace (fuel : nat) (st : loop_state) :
  trace_inv cap export_from_index st ->
  (passes_left (timestamps cap) st < fuel)%nat ->
  exists st',
    frame_loop process_frame fuel export_from_index export_to_index st
    = (progress_event export_from_index export_to_index
         <$> update_indices (next_update_idx st) last,
       Returned, st')
    /\ encoded (video_stream st')
       = encoded (video_stream st)
         ++ (output_frame process_frame cap export_from_index
               <$> indices (target_frame_idx (capture st)) last)
    /\ same_config (video_stream st') (video_stream st)
    /\ location (target_container st') = location (target_container st)
    /\ closed (target_container st') = closed (target_container st).
Proof.
  revert st. induction fuel as [|fuel IH]; intros st Hinv Hfuel; [lia|].
  set (t := target_frame_idx (capture st)).
  assert (Hpos : 0 <= t).
  { unfold t. rewrite (tr_target _ _ _ Hinv).
    pose proof (tr_from _ _ _ Hinv). lia. }
  pose proof (tr_due _ _ _ Hinv) as Hdue. fold t in Hdue.
  destruct (Z_lt_le_dec last t) as [Hstop|Hgo].
  - destruct (body_stops process_frame export_from_index export_to_index st)
      as (st' & Hb & Hvs & Htc).
    { destruct (tr_source _ _ _ Hinv) as (_ & -> & _).
      fold t. unfold last_index in Hstop. lia. }
    exists st'. simpl. rewrite Hb, Hvs, Htc.
    rewrite update_indices_nil by lia. rewrite indices_nil by (fold t; lia).
    rewrite app_nil_r. repeat split.
  - destruct (trace_step st Hinv Hgo)
      as (st1 & Hinv1 & Henc1 & Htgt1 & Hcases).
    destruct (IH st1 Hinv1) as (st' & Hloop & Henc & Hcfg & Hloc & Hcl).
    { unfold passes_left in *. rewrite Htgt1. fold t in Hfuel |- *.
      unfold last_index in Hgo.
      destruct (Z.ltb_spec t 0); [lia|].
      destruct (Z.ltb_spec (t + 1) 0); lia. }
    assert (Hframes : encoded (video_stream st')
              = encoded (video_stream st)
                ++ (output_frame process_frame cap export_from_index
                      <$> indices t last)).
    { rewrite Henc, Henc1, Htgt1. fold t.
      rewrite (indices_cons t) by lia. rewrite fmap_cons.
      rewrite <- app_assoc. reflexivity. }
    exists st'. simpl.
    destruct Hcases as [(Hlt & Hb & Hn)|(Heq & Hb & Hn)]; rewrite Hb, Hloop.
    + pose proof (body_same_config _ _ _ Hb) as (Hc1 & Hl1 & Hcl1).
      rewrite Hn. split; [reflexivity|]. split; [exact Hframes|].
      split; [eapply same_config_trans; eassumption|]. split; congruence.
    + pose proof (body_same_config _ _ _ Hb) as (Hc1 & Hl1 & Hcl1).
      rewrite Hn. fold t in Heq. rewrite <- Heq.
      rewrite (update_indices_cons t) by lia. rewrite fmap_cons.
      split; [reflexivity|]. split; [exact Hframes|].
      split; [eapply same_config_trans; eassumption|]. split; congruence.
Qed.

End Trace.

(** ** Whole runs in closed form *)

Lemma step_same_config (process_frame : File_Source -> Frame -> image)
      (from to : Z) (st : loop_state) :
  match loop_body process_frame from to st with
  | Break st' | Continue st' _ | Raise _ st' =>
      same_config (video_stream st') (video_stream st)
  end.
Proof.
  unfold loop_body.
  destruct (get_frame (capture st)) as [e|[frame cap']];
    [destruct e; apply same_config_refl|].
  destruct (index frame >? to); [apply same_config_refl|].
  match goal with
  | |- context [encode ?a ?b] =>
      pose proof (encode_same_config a b) as Hc;
      destruct (encode a b) as [packet vs]
  end.
  simpl in Hc.
  destruct (current_frame_idx cap' >=? next_update_idx st);
    [destruct (progress_percent _ _ _)|]; exact Hc.
Qed.

Lemma frame_loop_same_config (process_frame : File_Source -> Frame -> image)
      (fuel : nat) (from to : Z) (st : loop_state) :
  same_config
    (video_stream (snd (frame_loop process_frame fuel from to st)))
    (video_stream st).
Proof.
  revert st. induction fuel as [|fuel IH]; intros st; cbn [frame_loop].
  - apply same_config_refl.
  - pose proof (step_same_config process_frame from to st) as Hs.
    destruct (loop_body process_frame from to st) as [st1|st1 y|e st1];
      try exact Hs.
    specialize (IH st1).
    destruct (frame_loop process_frame fuel from to st1) as [[evs e] st'].
    eapply same_config_trans; eassumption.
Qed.

Section RunTrace.

Variable range : Type.
Variable exact_window : list Q -> range -> Q * Q.
Variable find_closest : list Q -> Q * Q -> Z * Z.
Variable process_frame : File_Source -> Frame -> image.

Local Abbreviation export :=
  (export_processed_h264 range exact_window find_closest process_frame).

Lemma loop_entry_trace_inv (v : Video) (from : Z) (vs : VideoStream)
      (tc : Container) :
  0 <= from ->
  encoded vs = [] ->
  trace_inv (File_Source_init (Some v)) from
    (mkLoop (seek_to_frame (File_Source_init (Some v)) from) None
            (from + update_rate) vs tc
            {| planes0 := []; pts := 0; frame_time_base := time_base |}).
Proof.
  intros Hfrom Henc. constructor; simpl; try rewrite Henc; simpl;
    try reflexivity; try lia.
  - repeat split.
  - intros H. now contradiction H.
  - unfold update_rate. lia.
  - exists 1. unfold update_rate. lia.
Qed.

(** A run whose source initialises and whose range starts at a valid
    index, in closed form. *)
Lemma run_trace (env : Env) (world_timestamps : list Q)
      (src dst : string) (export_range : range) (v : Video) (from to : Z) :
  video_at env src = Some v ->
  find_closest (video_timestamps v)
               (exact_window world_timestamps export_range) = (from, to) ->
  0 <= from ->
  let cap := File_Source_init (Some v) in
  let run := export env world_timestamps src dst export_range in
  events run
  = ("Converting video"%string, 1 # 10)
    :: (progress_event from to
          <$> update_indices (from + update_rate) (last_index cap to))
    ++ [("Converting video completed"%string, 100%Q)]
  /\ exists vs tc,
       stream run = Some vs
       /\ container run = Some tc
       /\ encoded vs
          = output_frame process_frame cap from
              <$> indices from (last_index cap to)
       /\ waiting vs = []
       /\ muxed tc = encoded vs
       /\ closed tc = true
       /\ location tc = dst.
Proof.
  intros Hv Hfc Hfrom cap run. subst run.
  unfold export_processed_h264. rewrite Hv.
  cbn [File_Source_init initialised negb timestamps]. rewrite Hfc.
  match goal with
  | |- context [frame_loop _ _ _ _ ?s] => set (st0 := s)
  end.
  destruct (frame_loop_trace process_frame cap from to
              (S (length (video_timestamps v))) st0)
    as (st' & Hloop & Henc & _ & Hloc & Hcl).
  { apply loop_entry_trace_inv; [exact Hfrom|reflexivity]. }
  { unfold passes_left, st0. simpl. destruct (Z.ltb_spec from 0); lia. }
  destruct (frame_loop_spec process_frame (video_timestamps v) from to
              (S (length (video_timestamps v))) st0)
    as (evs & st'' & Hloop' & _ & Hmux & _).
  { apply (loop_entry_inv v from env dst). }
  { unfold passes_left, st0. simpl. destruct (Z.ltb_spec from 0); lia. }
  rewrite Hloop in Hloop'. injection Hloop' as _ <-.
  rewrite Hloop.
  destruct (flush_total (S (length (waiting (video_stream st'))))
                        (video_stream st') (target_container st'))
    as (vs & tc & Hflush & Hall); [lia|].
  rewrite Hflush.
  pose proof (flush_same_config _ _ _ _ _ Hflush) as (_ & Hloc' & _).
  apply flush_encoded in Hflush as (Henc' & _ & Hwait).
  simpl. split; [reflexivity|].
  exists vs, (close tc). simpl.
  split; [reflexivity|]. split; [reflexivity|].
  split; [rewrite Henc', Henc; reflexivity|].
  split; [exact Hwait|]. split; [congruence|]. split; [reflexivity|].
  rewrite Hloc', Hloc. reflexivity.
Qed.

End RunTrace.

(** ** Order of timestamps and of ticks *)

Lemma int_of_nonneg_mono (x y : Q) :
  (0 <= x)%Q -> (x <= y)%Q -> 0 <= int_of x <= int_of y.
Proof.
  intros Hx Hxy.
  assert (Hy : (0 <= y)%Q) by lra.
  destruct (int_of_truncates x) as [Hpx _].
  destruct (int_of_truncates y) as [Hpy _].
  destruct (Hpx Hx) as [Hx1 Hx2]. destruct (Hpy Hy) as [Hy1 Hy2].
  split.
  - assert (H : (inject_Z 0 < inject_Z (int_of x + 1))%Q)
      by (change (inject_Z 0) with 0%Q; lra).
    rewrite <- Zlt_Qlt in H. lia.
  - assert (H : (inject_Z (int_of x) < inject_Z (int_of y + 1))%Q) by lra.
    rewrite <- Zlt_Qlt in H. lia.
Qed.

Lemma stamp_lookup (c : File_Source) (i : Z) :
  0 <= i < Z.of_nat (length (timestamps c)) ->
  timestamps c !! Z.to_nat i = Some (stamp c i).
Proof.
  intros Hi. unfold stamp.
  destruct (lookup_lt_is_Some_2 (timestamps c) (Z.to_nat i)) as [t Ht];
    [lia|].
  now rewrite Ht.
Qed.

Lemma stamp_mono (c : File_Source) (a b : Z) :
  nondecreasing (timestamps c) ->
  0 <= a -> a <= b -> b < Z.of_nat (length (timestamps c)) ->
  (stamp c a <= stamp c b)%Q.
Proof.
  intros Hnd Ha Hab Hb.
  apply (Hnd (Z.to_nat a) (Z.to_nat b)); [lia|..]; apply stamp_lookup; lia.
Qed.

Lemma new_pts_mono (c : File_Source) (from a b : Z) :
  nondecreasing (timestamps c) ->
  0 <= from -> from <= a -> a <= b -> b < Z.of_nat (length (timestamps c)) ->
  0 <= new_pts (frame_at c a) (stamp c from)
    <= new_pts (frame_at c b) (stamp c from).
Proof.
  intros Hnd Hfrom Ha Hab Hb. unfold new_pts. simpl.
  pose proof (stamp_mono c from a Hnd) as H1.
  pose proof (stamp_mono c a b Hnd) as H2.
  specialize (H1 ltac:(lia) ltac:(lia) ltac:(lia)).
  specialize (H2 ltac:(lia) ltac:(lia) ltac:(lia)).
  apply int_of_nonneg_mono.
  - rewrite ticks_of_seconds. 
    apply Qmult_le_0_compat; [lra|unfold Qle; simpl; lia].
  - rewrite !ticks_of_seconds.
    apply Qmult_le_compat_r; [lra|unfold Qle; simpl; lia].
Qed.

(** ** What a run of the pipeline produces *)

Section Produces.

Variable range : Type.
Variable exact_window : list Q -> range -> Q * Q.
Variable find_closest : list Q -> Q * Q -> Z * Z.
Variable process_frame : File_Source -> Frame -> image.

Local Abbreviation export :=
  (export_processed_h264 range exact_window find_closest process_frame).

(** X1. In a run whose source initialises and whose range starts at a
    valid index, the events between the liveness event and the completion
    event are exactly those of the indices [from + 10], [from + 20], ...
    up to the last frame processed, in this order, each with the percent
    [((c - from) / (to - from) * 0.9 + 0.1) * 100] of its index [c]. *)
Theorem progress_events_every_update_rate
    (env : Env) (world_timestamps : list Q) (src dst : string)
    (export_range : range) (export_from_index export_to_index : Z) :
  let cap := File_Source_init (video_at env src) in
  initialised cap = true ->
  find_closest (timestamps cap)
               (exact_window world_timestamps export_range)
  = (export_from_index, export_to_index) ->
  0 <= export_from_index ->
  events (export env world_timestamps src dst export_range)
  = ("Converting video"%string, 1 # 10)
    :: (progress_event export_from_index export_to_index
          <$> update_indices (export_from_index + update_rate)
                             (last_index cap export_to_index))
    ++ [("Converting video completed"%string, 100%Q)].
Proof.
  intros cap Hinit Hfc Hfrom. subst cap.
  destruct (initialised_video env src Hinit) as [v Hv].
  rewrite Hv in *. simpl in Hfc.
  destruct (run_trace range exact_window find_closest process_frame env
              world_timestamps src dst export_range v _ _ Hv Hfc Hfrom)
    as [Hev _].
  exact Hev.
Qed.

(** X2. In such a run the frames handed to the encoder are the transforms
    of the source frames at [from], [from + 1], ... up to the end of the
    range or of the source, each once and in this order, and the closed
    container at the target location holds exactly these. *)
Theorem encoded_frames_are_the_range
    (env : Env) (world_timestamps : list Q) (src dst : string)
    (export_range : range) (export_from_index export_to_index : Z) :
  let cap := File_Source_init (video_at env src) in
  initialised cap = true ->
  find_closest (timestamps cap)
               (exact_window world_timestamps export_range)
  = (export_from_index, export_to_index) ->
  0 <= export_from_index ->
  let run := export env world_timestamps src dst export_range in
  exists vs tc,
    stream run = Some vs
    /\ container run = Some tc
    /\ encoded vs
       = output_frame process_frame cap export_from_index
           <$> indices export_from_index (last_index cap export_to_index)
    /\ muxed tc = encoded vs
    /\ waiting vs = []
    /\ closed tc = true
    /\ location tc = dst.
Proof.
  intros cap Hinit Hfc Hfrom run. subst cap run.
  destruct (initialised_video env src Hinit) as [v Hv].
  rewrite Hv in *. simpl in Hfc.
  destruct (run_trace range exact_window find_closest process_frame env
              world_timestamps src dst export_range v _ _ Hv Hfc Hfrom)
    as (_ & vs & tc & H1 & H2 & H3 & H4 & H5 & H6 & H7).
  exists vs, tc. auto 10.
Qed.

(** X3. When the range holds no frame of the source (its end lies before
    its start, or the source has no frame at its start), the run encodes
    nothing and still completes: it yields the liveness event and the
    completion event at 100, and leaves a closed container without
    frames. *)
Theorem empty_range_completes
    (env : Env) (world_timestamps : list Q) (src dst : string)
    (export_range : range) (export_from_index export_to_index : Z) :
  let cap := File_Source_init (video_at env src) in
  initialised cap = true ->
  find_closest (timestamps cap)
               (exact_window world_timestamps export_range)
  = (export_from_index, export_to_index) ->
  0 <= export_from_index ->
  last_index cap export_to_index < export_from_index ->
  let run := export env world_timestamps src dst export_range in
  events run = [("Converting video"%string, 1 # 10);
                ("Converting video completed"%string, 100%Q)]
  /\ exists vs tc,
       stream run = Some vs /\ container run = Some tc
       /\ encoded vs = [] /\ muxed tc = [] /\ closed tc = true.
Proof.
  intros cap Hinit Hfc Hfrom Hempty run. subst cap run.
  destruct (initialised_video env src Hinit) as [v Hv].
  rewrite Hv in *. simpl in Hfc.
  destruct (run_trace range exact_window find_closest process_frame env
              world_timestamps src dst export_range v _ _ Hv Hfc Hfrom)
    as (Hev & vs & tc & H1 & H2 & H3 & H4 & H5 & H6 & H7).
  rewrite indices_nil in H3 by exact Hempty.
  rewrite update_indices_nil in Hev by (unfold update_rate; lia).
  split; [exact Hev|]. exists vs, tc.
  rewrite H3 in H5. auto 10.
Qed.

(** X4. When the source ends before the range does, the run encodes the
    frames from the start of the range to the end of the source, and still
    returns with the completion event at 100 as its last event. *)
Theorem early_end_of_stream
    (env : Env) (world_timestamps : list Q) (src dst : string)
    (export_range : range) (export_from_index export_to_index : Z) :
  let cap := File_Source_init (video_at env src) in
  initialised cap = true ->
  find_closest (timestamps cap)
               (exact_window world_timestamps export_range)
  = (export_from_index, export_to_index) ->
  0 <= export_from_index < Z.of_nat (length (timestamps cap)) ->
  Z.of_nat (length (timestamps cap)) <= export_to_index ->
  let run := export env world_timestamps src dst export_range in
  ended run = Returned
  /\ last (events run) = Some ("Converting video completed"%string, 100%Q)
  /\ exists vs,
       stream run = Some vs
       /\ Z.of_nat (length (encoded vs))
          = Z.of_nat (length (timestamps cap)) - export_from_index.
Proof.
  intros cap Hinit Hfc Hfrom Hto run. subst cap run.
  destruct (initialised_video env src Hinit) as [v Hv].
  rewrite Hv in *. simpl in Hfc, Hfrom, Hto |- *.
  destruct (run_initialised range exact_window find_closest process_frame
              env world_timestamps src dst export_range v _ _ Hv Hfc)
    as (evs & vs & tc & Hev & Hend & Hst & _ & _ & _ & _ & _ & _ & _ & _
        & Hcount & _).
  simpl in Hev, Hend, Hst.
  split; [exact Hend|]. split.
  - rewrite Hev, app_comm_cons. apply last_snoc.
  - exists vs. split; [exact Hst|]. rewrite Hcount by lia. lia.
Qed.

(** X5. In a run whose source initialises and whose range starts at a
    valid index, the number of events is two more than the number of whole
    multiples of [update_rate] between the start of the range and the last
    frame processed. *)
Theorem event_count
    (env : Env) (world_timestamps : list Q) (src dst : string)
    (export_range : range) (export_from_index export_to_index : Z) :
  let cap := File_Source_init (video_at env src) in
  initialised cap = true ->
  find_closest (timestamps cap)
               (exact_window world_timestamps export_range)
  = (export_from_index, export_to_index) ->
  0 <= export_from_index ->
  Z.of_nat (length (events (export env world_timestamps src dst export_range)))
  = 2 + Z.max 0 ((last_index cap export_to_index - export_from_index)
                 / update_rate).
Proof.
  intros cap Hinit Hfc Hfrom. subst cap.
  destruct (initialised_video env src Hinit) as [v Hv].
  rewrite Hv in *. simpl in Hfc.
  destruct (run_trace range exact_window find_closest process_frame env
              world_timestamps src dst export_range v _ _ Hv Hfc Hfrom)
    as [Hev _].
  rewrite Hev.
  set (l := last_index (File_Source_init (Some v)) export_to_index).
  cbn [length]. rewrite length_app, length_fmap. cbn [length].
  unfold update_rate.
  destruct (Z_lt_le_dec l (export_from_index + 10)) as [Hshort|Hlong].
  - rewrite update_indices_nil by lia. cbn [length].
    assert ((l - export_from_index) / 10 <= 0); [|lia].
    destruct (Z_lt_le_dec (l - export_from_index) 0).
    + apply Z.lt_le_incl, Z.div_lt_upper_bound; lia.
    + rewrite Z.div_small; lia.
  - pose proof (length_update_indices (export_from_index + update_rate) l)
      as Hlen.
    unfold update_rate in Hlen. specialize (Hlen Hlong).
    replace (l - export_from_index)
      with ((l - (export_from_index + 10)) + 1 * 10) by lia.
    rewrite Z.div_add by lia.
    assert (0 <= (l - (export_from_index + 10)) / 10)
      by (apply Z.div_pos; lia).
    lia.
Qed.

(** X6. When the timestamps of the source never go down, the presentation
    timestamps of the encoded frames are non-negative and never go down
    either. *)
Theorem pts_nondecreasing
    (env : Env) (world_timestamps : list Q) (src dst : string)
    (export_range : range) (export_from_index export_to_index : Z)
    (vs : VideoStream) (i j : nat) (fi fj : VideoFrame) :
  let cap := File_Source_init (video_at env src) in
  find_closest (timestamps cap)
               (exact_window world_timestamps export_range)
  = (export_from_index, export_to_index) ->
  0 <= export_from_index ->
  nondecreasing (timestamps cap) ->
  stream (export env world_timestamps src dst export_range) = Some vs ->
  (i <= j)%nat ->
  encoded vs !! i = Some fi ->
  encoded vs !! j = Some fj ->
  0 <= pts fi <= pts fj.
Proof.
  intros cap Hfc Hfrom Hnd Hst Hij Hi Hj. subst cap.
  destruct (video_at env src) as [v|] eqn:Hv.
  - simpl in Hfc.
    destruct (run_trace range exact_window find_closest process_frame env
                world_timestamps src dst export_range v _ _ Hv Hfc Hfrom)
      as (_ & vs' & tc & H1 & _ & H3 & _).
    simpl in H1. rewrite H1 in Hst. injection Hst as <-.
    rewrite H3 in Hi, Hj. rewrite list_lookup_fmap in Hi, Hj.
    unfold indices in Hi, Hj.
    destruct (seqZ _ _ !! i) as [a|] eqn:Ha; [|discriminate].
    destruct (seqZ _ _ !! j) as [b|] eqn:Hb; [|discriminate].
    apply lookup_seqZ in Ha as [-> Ha]. apply lookup_seqZ in Hb as [-> Hb].
    simpl in Hi, Hj. injection Hi as <-. injection Hj as <-.
    unfold last_index in Ha, Hb.
    cbn [pts output_frame].
    apply new_pts_mono; [exact Hnd|..];
      cbn [timestamps File_Source_init] in *; lia.
  - rewrite run_uninitialised in Hst by exact Hv. discriminate.
Qed.

(** X7. A run whose source initialises releases the capture and leaves a
    closed container that holds every frame handed to the encoder; a run
    whose source does not initialise opens no stream and no container and
    returns without releasing the capture. *)
Theorem run_releases_resources
    (env : Env) (world_timestamps : list Q) (src dst : string)
    (export_range : range) :
  let run := export env world_timestamps src dst export_range in
  if initialised (File_Source_init (video_at env src)) then
    released (source run) = true
    /\ exists vs tc,
         stream run = Some vs /\ container run = Some tc
         /\ closed tc = true /\ muxed tc = encoded vs
  else
    released (source run) = false
    /\ stream run = None /\ container run = None.
Proof.
  intros run. subst run. destruct (video_at env src) as [v|] eqn:Hv.
  - destruct (find_closest (video_timestamps v)
                (exact_window world_timestamps export_range))
      as [from to] eqn:Hfc.
    destruct (run_initialised range exact_window find_closest process_frame
                env world_timestamps src dst export_range v from to Hv Hfc)
      as (evs & vs & tc & _ & _ & Hst & Hct & Hcl & Hrel & _ & Hmux & _).
    simpl. split; [exact Hrel|]. exists vs, tc. auto.
  - rewrite run_uninitialised by exact Hv. simpl. auto.
Qed.

(** X8. The stream of every run that opens one is an mpeg4 stream at
    65535 ticks per second with a bit rate of 150e6, a tolerance of one
    twentieth of it, the frame size of the source, and one thread less than
    there are processors but never less than one. *)
Theorem stream_configuration
    (env : Env) (world_timestamps : list Q) (src dst : string)
    (export_range : range) (vs : VideoStream) :
  stream (export env world_timestamps src dst export_range) = Some vs ->
  codec_name vs = "mpeg4"%string
  /\ rate vs = 65535%Q
  /\ bit_rate vs = 150000000%Q
  /\ bit_rate_tolerance vs = (bit_rate vs / 20)%Q
  /\ thread_count vs = Z.max 1 (cpu_count env - 1)
  /\ 1 <= thread_count vs
  /\ (width vs, height vs)
     = frame_size (File_Source_init (video_at env src)).
Proof.
  unfold export_processed_h264.
  destruct (video_at env src) as [v|] eqn:Hv; [|discriminate].
  cbn [File_Source_init initialised negb timestamps].
  destruct (find_closest _ _) as [from to].
  match goal with
  | |- context [frame_loop _ ?f _ _ ?s] =>
      pose proof (frame_loop_same_config process_frame f from to s) as Hc;
      destruct (frame_loop process_frame f from to s) as [[evs e] st']
  end.
  cbn [snd] in Hc.
  assert (Hgoal : forall s, same_config s (video_stream st') ->
            codec_name s = "mpeg4"%string
            /\ rate s = 65535%Q
            /\ bit_rate s = 150000000%Q
            /\ bit_rate_tolerance s = (bit_rate s / 20)%Q
            /\ thread_count s = Z.max 1 (cpu_count env - 1)
            /\ 1 <= thread_count s
            /\ (width s, height s) = video_frame_size v).
  { intros s Hs.
    pose proof (same_config_trans _ _ _ Hs Hc)
      as (H1 & H2 & H3 & H4 & H5 & H6 & H7 & _).
    simpl in H1, H2, H3, H4, H5, H6, H7.
    rewrite H1, H2, H3, H4, H5, H6, H7.
    repeat split; try lia. now destruct (video_frame_size v). }
  destruct e.
  - destruct (flush _ _ _) as [[vs1 tc1]|] eqn:Hflush.
    + apply flush_same_config in Hflush as (Hf & _).
      intros [= <-]. simpl. now apply Hgoal.
    + intros [= <-]. simpl. apply Hgoal, same_config_refl.
  - intros [= <-]. simpl. apply Hgoal, same_config_refl.
  - intros [= <-]. simpl. apply Hgoal, same_config_refl.
Qed.

(** X9. The events of every run end with its only terminal event: the
    last event carries the completion or the failure message, and every
    event before it carries the message [Converting video]. *)
Theorem terminal_event_is_last
    (env : Env) (world_timestamps : list Q) (src dst : string)
    (export_range : range) :
  exists (before : list ProgressEvent) (final : ProgressEvent),
    events (export env world_timestamps src dst export_range)
    = before ++ [final]
    /\ (final = ("Converting video completed"%string, 100%Q)
        \/ final = ("Converting scene video failed"%string, 0%Q))
    /\ Forall (fun ev => fst ev = "Converting video"%string) before.
Proof.
  destruct (video_at env src) as [v|] eqn:Hv.
  - destruct (find_closest (video_timestamps v)
                (exact_window world_timestamps export_range))
      as [from to] eqn:Hfc.
    destruct (run_initialised range exact_window find_closest process_frame
                env world_timestamps src dst export_range v from to Hv Hfc)
      as (evs & vs & tc & Hev & _ & _ & _ & _ & _ & _ & _ & _ & Hat & _).
    simpl in Hev.
    exists (("Converting video"%string, 1 # 10) :: evs),
           ("Converting video completed"%string, 100%Q).
    split; [exact Hev|]. split; [now left|].
    apply List.Forall_cons; [reflexivity|].
    eapply Forall_impl; [exact Hat|]. now intros ev [Hmsg _].
  - rewrite run_uninitialised by exact Hv.
    exists [("Converting video"%string, 1 # 10)],
           ("Converting scene video failed"%string, 0%Q).
    split; [reflexivity|]. split; [now right|].
    apply List.Forall_cons; [reflexivity|apply List.Forall_nil].
Qed.

End Produces.

(** ** The closed forms on the sample recording *)

Lemma sample_stamps_nondecreasing :
  nondecreasing
    (timestamps (File_Source_init (video_at (Sample.host 5) "/rec/world.mp4"))).
Proof.
  apply StronglySorted_nondecreasing.
  change (StronglySorted Qle (Sample.stamps 5)). unfold Sample.stamps. simpl.
  repeat (apply SSorted_cons || apply SSorted_nil
          || apply List.Forall_cons || apply List.Forall_nil);
    unfold Qle; simpl; lia.
Qed.

(** Thirty frames and the range [(0, 29)]: updates at 10 and at 20. *)
Lemma progress_events_every_update_rate_witness :
  events (Sample.export 30 "/rec/world.mp4" (5, 6)%Q)
  = ("Converting video"%string, 1 # 10)
    :: (progress_event 0 29 <$> [10; 20])
    ++ [("Converting video completed"%string, 100%Q)].
Proof.
  apply (progress_events_every_update_rate (Q * Q) Resolver.exact_window
           Resolver.find_closest Sample.keep (Sample.host 30)
           (Sample.stamps 30) "/rec/world.mp4" "/exports/scene.mp4"
           (5, 6)%Q 0 29).
  - vm_compute. reflexivity.
  - vm_compute. reflexivity.
  - lia.
Defined.

(** Five frames and the range [(1, 3)]: the pictures 1, 2 and 3. *)
Lemma encoded_frames_are_the_range_witness :
  exists vs,
    stream (Sample.export 5 "/rec/world.mp4"
                          (5 + (1 # 30), 5 + (3 # 30))%Q) = Some vs
    /\ map planes0 (encoded vs) = [[1]; [2]; [3]].
Proof.
  destruct (encoded_frames_are_the_range (Q * Q) Resolver.exact_window
              Resolver.find_closest Sample.keep (Sample.host 5)
              (Sample.stamps 5) "/rec/world.mp4" "/exports/scene.mp4"
              (5 + (1 # 30), 5 + (3 # 30))%Q 1 3)
    as (vs & tc & Hst & _ & Henc & _).
  - vm_compute. reflexivity.
  - vm_compute. reflexivity.
  - lia.
  - exists vs. split; [exact Hst|]. rewrite Henc. vm_compute. reflexivity.
Defined.

(** Five frames and the range [(3, 1)]. *)
Lemma empty_range_completes_witness :
  events (Cases.export 5 (3, 1))
  = [("Converting video"%string, 1 # 10);
     ("Converting video completed"%string, 100%Q)].
Proof.
  destruct (empty_range_completes (Q * Q) Resolver.exact_window
              (Cases.fixed (3, 1)) Sample.keep (Sample.host 5)
              (Sample.stamps 5) "/rec/world.mp4" "/exports/scene.mp4"
              (5, 6)%Q 3 1)
    as [Hev _].
  - vm_compute. reflexivity.
  - reflexivity.
  - lia.
  - vm_compute. reflexivity.
  - exact Hev.
Defined.

(** Five frames and the range [(3, 9)]: the frames 3 and 4. *)
Lemma early_end_of_stream_witness :
  exists vs,
    stream (Cases.export 5 (3, 9)) = Some vs
    /\ Z.of_nat (length (encoded vs)) = 5 - 3.
Proof.
  destruct (early_end_of_stream (Q * Q) Resolver.exact_window
              (Cases.fixed (3, 9)) Sample.keep (Sample.host 5)
              (Sample.stamps 5) "/rec/world.mp4" "/exports/scene.mp4"
              (5, 6)%Q 3 9)
    as (_ & _ & vs & Hst & Hlen).
  - vm_compute. reflexivity.
  - reflexivity.
  - vm_compute. split; [discriminate|reflexivity].
  - vm_compute. discriminate.
  - exists vs. split; [exact Hst|exact Hlen].
Defined.

Lemma event_count_witness :
  Z.of_nat (length (events (Sample.export 30 "/rec/world.mp4" (5, 6)%Q)))
  = 4.
Proof.
  unfold Sample.export.
  rewrite (event_count (Q * Q) Resolver.exact_window
             Resolver.find_closest Sample.keep (Sample.host 30)
             (Sample.stamps 30) "/rec/world.mp4" "/exports/scene.mp4"
             (5, 6)%Q 0 29).
  - vm_compute. reflexivity.
  - vm_compute. reflexivity.
  - vm_compute. reflexivity.
  - lia.
Defined.

Lemma pts_nondecreasing_witness :
  exists vs fi fj,
    stream (Sample.export 5 "/rec/world.mp4"
                          (5 + (1 # 30), 5 + (3 # 30))%Q) = Some vs
    /\ encoded vs !! 0%nat = Some fi
    /\ encoded vs !! 2%nat = Some fj
    /\ 0 <= pts fi <= pts fj.
Proof.
  eexists. eexists. eexists.
  split; [vm_compute; reflexivity|].
  split; [vm_compute; reflexivity|].
  split; [vm_compute; reflexivity|].
  eapply (pts_nondecreasing (Q * Q) Resolver.exact_window
            Resolver.find_closest Sample.keep (Sample.host 5)
            (Sample.stamps 5) "/rec/world.mp4" "/exports/scene.mp4"
            (5 + (1 # 30), 5 + (3 # 30))%Q 1 3 _ 0%nat 2%nat).
  - vm_compute. reflexivity.
  - lia.
  - exact sample_stamps_nondecreasing.
  - vm_compute. reflexivity.
  - lia.
  - vm_compute. reflexivity.
  - vm_compute. reflexivity.
Defined.

(** Four processors: three threads. *)
Lemma stream_configuration_witness :
  exists vs,
    stream (Sample.export 5 "/rec/world.mp4" (5, 6)%Q) = Some vs
    /\ thread_count vs = 3
    /\ (width vs, height vs) = (4, 2).
Proof.
  eexists. split; [vm_compute; reflexivity|].
  edestruct (stream_configuration (Q * Q) Resolver.exact_window
               Resolver.find_closest Sample.keep (Sample.host 5)
               (Sample.stamps 5) "/rec/world.mp4" "/exports/scene.mp4"
               (5, 6)%Q)
    as (_ & _ & _ & _ & Hthreads & _ & Hsize).
  - vm_compute. reflexivity.
  - split; [exact Hthreads|exact Hsize].
Defined.

(** ** The name of the destination directory *)

Lemma chars_app (a b : string) : chars (a ++ b) = chars a ++ chars b.
Proof.
  unfold chars. induction a as [|c a IH]; simpl; [reflexivity|].
  now rewrite IH.
Qed.

Lemma replace_length (old new : ascii) (s : string) :
  String.length (Py.replace old new s) = String.length s.
Proof. induction s as [|c s IH]; simpl; [reflexivity|]. now rewrite IH. Qed.

Lemma replace_removes (old new : ascii) (s : string) :
  old <> new -> old ∉ chars (Py.replace old new s).
Proof.
  intros Hne. unfold chars. induction s as [|c s IH]; simpl.
  - apply not_elem_of_nil.
  - apply not_elem_of_cons. split; [|exact IH].
    destruct (Ascii.eqb_spec c old); congruence.
Qed.

Lemma replace_keeps_out (old new c : ascii) (s : string) :
  c <> new -> c ∉ chars s -> c ∉ chars (Py.replace old new s).
Proof.
  intros Hne. unfold chars. induction s as [|x s IH]; simpl.
  - intros _. apply not_elem_of_nil.
  - intros Hout. apply not_elem_of_cons in Hout as [Hx Hs].
    apply not_elem_of_cons. split; [|now apply IH].
    destruct (Ascii.eqb x old); congruence.
Qed.

Lemma string_length_app (a b : string) :
  String.length (a ++ b) = (String.length a + String.length b)%nat.
Proof. induction a as [|c a IH]; simpl; [reflexivity|]. now rewrite IH. Qed.

Section Names.

Variable range : Type.

(** X10. When [get_recording_start_date] returns, the metadata file was
    read and held both keys; the name returned has the length of the date,
    one separator and the time, holds no colon, and holds a dot only if
    the start time holds one. *)
Theorem recording_start_date_is_sanitised
    (self : VideoExporter range) (disk : Disk) (s : string) :
  get_recording_start_date range self disk = inr s ->
  exists (info : gmap string string) (d t : string),
    key_value_file disk (Py.join (rec_dir (g_pool range self)) "info.csv")
    = Some info
    /\ info !! "Start Date"%string = Some d
    /\ info !! "Start Time"%string = Some t
    /\ String.length s = (String.length d + 1 + String.length t)%nat
    /\ (":"%char ∉ chars s)
    /\ ("."%char ∉ chars t -> "."%char ∉ chars s).
Proof.
  unfold get_recording_start_date.
  destruct (key_value_file disk _) as [info|] eqn:Hfile; [|discriminate].
  destruct (info !! "Start Date"%string) as [d|] eqn:Hd; [|discriminate].
  destruct (info !! "Start Time"%string) as [t|] eqn:Ht; [|discriminate].
  intros [= <-]. exists info, d, t.
  split; [reflexivity|]. split; [exact Hd|]. split; [exact Ht|].
  split; [|split].
  - rewrite !string_length_app, !replace_length. simpl. lia.
  - rewrite !chars_app. rewrite !not_elem_of_app.
    split; [apply replace_removes; discriminate|].
    split; [|apply replace_removes; discriminate].
    unfold chars. simpl. apply not_elem_of_cons.
    split; [discriminate|apply not_elem_of_nil].
  - intros Hdot. rewrite !chars_app. rewrite !not_elem_of_app.
    split; [|split].
    + apply replace_keeps_out; [discriminate|].
      apply replace_removes. discriminate.
    + unfold chars. simpl. apply not_elem_of_cons.
      split; [discriminate|apply not_elem_of_nil].
    + apply replace_keeps_out; [discriminate|exact Hdot].
Qed.

End Names.

Lemma recording_start_date_is_sanitised_witness :
  get_recording_start_date (Q * Q) Sample.plugin
    (Sample.disk ["/rec/world.mp4"%string] true)
  = inr "12_03_2018_10_15_00"%string
  /\ (":"%char ∉ chars "12_03_2018_10_15_00").
Proof.
  assert (H : get_recording_start_date (Q * Q) Sample.plugin
                (Sample.disk ["/rec/world.mp4"%string] true)
              = inr "12_03_2018_10_15_00"%string)
    by (vm_compute; reflexivity).
  split; [exact H|].
  destruct (recording_start_date_is_sanitised (Q * Q) Sample.plugin
              (Sample.disk ["/rec/world.mp4"%string] true)
              "12_03_2018_10_15_00" H)
    as (info & d & t & _ & _ & _ & _ & Hcolon & _).
  exact Hcolon.
Defined.

(** ** What a call to [add_export_job] changes *)

Section JobEffects.

Variable range : Type.
Variable exact_window : list Q -> range -> Q * Q.
Variable find_closest : list Q -> Q * Q -> Z * Z.

Local Abbreviation add_job :=
  (add_export_job range exact_window find_closest).

Lemma start_date_same_recording (self self' : VideoExporter range)
      (disk disk' : Disk) :
  g_pool range self' = g_pool range self ->
  key_value_file disk' = key_value_file disk ->
  get_recording_start_date range self' disk'
  = get_recording_start_date range self disk.
Proof.
  intros Hpool Hfile. unfold get_recording_start_date.
  now rewrite Hpool, Hfile.
Qed.

Lemma add_export_job_same_recording
      (self : VideoExporter range) (disk : Disk) (export_range : range)
      (export_dir plugin_name input_name output_name : string)
      (process_frame : File_Source -> Frame -> image) :
  let '(result, self', disk') :=
    add_job self disk export_range export_dir plugin_name input_name
            output_name process_frame in
  g_pool range self' = g_pool range self
  /\ glob disk' = glob disk
  /\ key_value_file disk' = key_value_file disk.
Proof.
  unfold add_export_job.
  destruct (get_recording_start_date range self disk) as [e|rec_start];
    [auto|].
  simpl. destruct (List.filter Py.accepted _) as [|loc others]; simpl; auto.
Qed.



(** X13. When a call to [add_export_job] succeeds, the same call made
    again succeeds with the same result and leaves the directories as the
    first call left them; it registers a second task equal to the first,
    so that two tasks now write to the same target file. *)
Theorem add_export_job_twice
    (self : VideoExporter range) (disk : Disk) (export_range : range)
    (export_dir plugin_name input_name output_name : string)
    (process_frame : File_Source -> Frame -> image)
    (folder : gmap string string)
    (self1 : VideoExporter range) (disk1 : Disk) :
  add_job self disk export_range export_dir plugin_name input_name
          output_name process_frame = (inr folder, self1, disk1) ->
  let '(result, self2, disk2) :=
    add_job self1 disk1 export_range export_dir plugin_name input_name
            output_name process_frame in
  result = inr folder
  /\ directories disk2 = directories disk1
  /\ exists task,
       export_tasks range self1
       = export_tasks range self ++ [("taskname"%string, task)]
       /\ export_tasks range self2
          = export_tasks range self
            ++ [("taskname"%string, task); ("taskname"%string, task)]
       /\ arg_target_video_loc range (args range task)
          = Py.join (output range self1) (output_name ++ ".mp4")%string.
Proof.
  intros Hfirst.
  pose proof (add_export_job_same_recording self disk export_range
                export_dir plugin_name input_name output_name process_frame)
    as Hkeep.
  rewrite Hfirst in Hkeep. destruct Hkeep as (Hpool & Hglob & Hfile).
  revert Hfirst. unfold add_export_job.
  rewrite (start_date_same_recording self self1 disk disk1 Hpool Hfile).
  destruct (get_recording_start_date range self disk) as [e|rec_start];
    [discriminate|].
  simpl. rewrite Hglob, Hpool.
  destruct (List.filter Py.accepted _) as [|loc others]; [discriminate|].
  intros [= <- <- <-]. simpl.
  split; [reflexivity|].
  split; [rewrite (assoc_L (∪)), (idemp_L (∪)); reflexivity|].
  eexists. split; [reflexivity|]. split; [|reflexivity].
  rewrite <- app_assoc. reflexivity.
Qed.

End JobEffects.


Lemma add_export_job_twice_witness :
  exists self1 disk1,
    snd (Sample.job (Sample.disk ["/rec/world.mp4"%string] true)) = disk1
    /\ snd (fst (Sample.job (Sample.disk ["/rec/world.mp4"%string] true)))
       = self1
    /\ length (export_tasks (Q * Q)
                 (snd (fst (add_export_job (Q * Q) Resolver.exact_window
                              Resolver.find_closest self1 disk1 (5, 6)%Q
                              "/exports/000" "iMotions" "world" "scene"
                              Sample.keep)))) = 2%nat.
Proof.
  destruct (Sample.job (Sample.disk ["/rec/world.mp4"%string] true))
    as [[result self1] disk1] eqn:Hjob.
  exists self1, disk1. split; [reflexivity|]. split; [reflexivity|].
  assert (Hres : exists folder, result = inr folder).
  { apply (f_equal (fun x => fst (fst x))) in Hjob.
    vm_compute in Hjob. destruct result; [discriminate|eauto]. }
  destruct Hres as [folder ->]. unfold Sample.job in Hjob.
  pose proof (add_export_job_twice _ _ _ _ _ _ _ _ _ _ _ _ _ _ Hjob) as H.
  destruct (add_export_job (Q * Q) Resolver.exact_window
              Resolver.find_closest self1 disk1 (5, 6)%Q "/exports/000"
              "iMotions" "world" "scene" Sample.keep)
    as [[result2 self2] disk2].
  destruct H as (_ & _ & task & _ & Htasks & _).
  simpl. rewrite Htasks. reflexivity.
Defined.

(** ** What polling keeps and what it shows *)

Section Shows.

Variable range : Type.

Local Abbreviation poll := (poll_task range).
Local Abbreviation poll_all := (poll_tasks range).
Local Abbreviation fetched :=
  (fun entry : string * Task_Proxy range =>
     (fst entry, snd (fetch range (snd entry)))).

Lemma poll_tasks_fetches (shown : string * Q)
      (tasks : list (string * Task_Proxy range)) :
  snd (poll_all shown tasks) = fetched <$> tasks.
Proof.
  revert shown. induction tasks as [|[name task] tasks IH]; intros shown.
  - reflexivity.
  - cbn [poll_tasks]. destruct (poll shown task) as [shown1 task'] eqn:Hp.
    specialize (IH shown1). destruct (poll_all shown1 tasks) as [s l].
    simpl in IH |- *. rewrite IH. f_equal. f_equal.
    unfold poll_task in Hp. simpl in Hp. now injection Hp as _ <-.
Qed.

Lemma poll_tasks_all_quiet (shown : string * Q)
      (tasks : list (string * Task_Proxy range)) :
  Forall quiet tasks -> fst (poll_all shown tasks) = shown.
Proof.
  induction 1 as [|[name task] l [Hf Hc] _ IH].
  - reflexivity.
  - rewrite poll_tasks_cons.
    rewrite (poll_task_quiet range shown task Hf Hc). exact IH.
Qed.

Lemma fetched_quiet (entry : string * Task_Proxy range) :
  canceled range (snd entry) = false -> quiet (fetched entry).
Proof. intros Hc. split; [reflexivity|exact Hc]. Qed.

Lemma recent_events_tasks (self : VideoExporter range) :
  export_tasks range (recent_events range self)
  = fetched <$> export_tasks range self.
Proof.
  unfold recent_events.
  pose proof (poll_tasks_fetches (status range self, progress range self)
                (export_tasks range self)) as H.
  destruct (poll_all _ _) as [[s p] tasks]. exact H.
Qed.

(** X14. A call to [recent_events] drops no task and adds none: it leaves
    every tracked task at its place, with its name, generator, arguments
    and [canceled] flag, and with nothing left to fetch; [output] and the
    recording are untouched. *)
Theorem recent_events_keeps_tasks (self : VideoExporter range) :
  export_tasks range (recent_events range self)
  = fetched <$> export_tasks range self
  /\ length (export_tasks range (recent_events range self))
     = length (export_tasks range self)
  /\ Forall (fun entry => fst (fetch range (snd entry)) = [])
            (export_tasks range (recent_events range self))
  /\ output range (recent_events range self) = output range self
  /\ g_pool range (recent_events range self) = g_pool range self.
Proof.
  pose proof (recent_events_tasks self) as Htasks.
  split; [exact Htasks|]. rewrite Htasks.
  split; [apply length_fmap|]. split.
  - apply Forall_fmap, Forall_true. reflexivity.
  - unfold recent_events. destruct (poll_all _ _) as [[s p] tasks].
    split; reflexivity.
Qed.

(** X15. When no tracked task is cancelled, a second call to
    [recent_events] right after the first changes nothing at all: the
    events were consumed by the first call. *)
Theorem recent_events_twice (self : VideoExporter range) :
  Forall (fun entry => canceled range (snd entry) = false)
         (export_tasks range self) ->
  recent_events range (recent_events range self)
  = recent_events range self.
Proof.
  intros Hrunning.
  pose proof (recent_events_tasks self) as Htasks.
  assert (Hquiet : Forall quiet (export_tasks range (recent_events range self))).
  { rewrite Htasks. apply Forall_fmap.
    eapply Forall_impl; [exact Hrunning|]. intros entry Hc.
    now apply fetched_quiet. }
  assert (Hsame : fetched <$> export_tasks range (recent_events range self)
                  = export_tasks range (recent_events range self)).
  { rewrite Htasks, <- list_fmap_compose.
    apply list_fmap_ext. intros _ [name task] _. reflexivity. }
  pose proof (poll_tasks_all_quiet
                (status range (recent_events range self),
                 progress range (recent_events range self))
                _ Hquiet) as Hshown.
  pose proof (poll_tasks_fetches
                (status range (recent_events range self),
                 progress range (recent_events range self))
                (export_tasks range (recent_events range self))) as Hlist.
  rewrite Hsame in Hlist.
  set (once := recent_events range self) in *.
  unfold recent_events at 1.
  destruct (poll_all (status range once, progress range once)
                     (export_tasks range once)) as [shown tasks].
  simpl in Hshown, Hlist. subst shown tasks. simpl.
  destruct once. reflexivity.
Qed.

(** X16. A cancelled task that is still tracked decides what is shown
    unless a later task reports: if the tasks behind it have no new events
    and are not cancelled, a call to [recent_events] shows the cancellation
    message at progress 0, whatever the cancelled task itself and the tasks
    before it had to report. *)
Theorem canceled_task_overrides
    (self : VideoExporter range)
    (before after : list (string * Task_Proxy range))
    (name : string) (task : Task_Proxy range) :
  export_tasks range self = before ++ (name, task) :: after ->
  canceled range task = true ->
  Forall quiet after ->
  status range (recent_events range self) = "Export has been canceled"%string
  /\ progress range (recent_events range self) = 0%Q.
Proof.
  intros Htasks Hc Hquiet.
  pose proof (recent_events_shown range self) as Hshown.
  rewrite Htasks, poll_tasks_app, poll_tasks_cons in Hshown.
  rewrite (poll_task_canceled range _ task Hc) in Hshown.
  rewrite poll_tasks_all_quiet in Hshown by exact Hquiet.
  now injection Hshown.
Qed.

(** X17. After [cancel] no task is tracked, so that however often
    [recent_events] is called afterwards, [status] and [progress] stay
    what they were before the cancellation: the cancellation message is
    not shown for tasks cancelled this way. *)
Theorem cancel_then_poll (self : VideoExporter range) (n : nat) :
  Nat.iter n (recent_events range) (cancel range self) = cancel range self
  /\ export_tasks range (cancel range self) = []
  /\ status range (cancel range self) = status range self
  /\ progress range (cancel range self) = progress range self.
Proof.
  split; [|repeat split].
  induction n as [|n IH]; simpl; [reflexivity|]. rewrite IH. reflexivity.
Qed.

Lemma poll_task_within (shown : string * Q) (task : Task_Proxy range) :
  (0 <= snd shown)%Q /\ (snd shown <= 100)%Q ->
  Forall (fun ev => (0 <= percent ev)%Q /\ (percent ev <= 100)%Q)
         (fst (fetch range task)) ->
  (0 <= snd (fst (poll shown task)))%Q
  /\ (snd (fst (poll shown task)) <= 100)%Q.
Proof.
  intros Hshown Hpipe. unfold poll_task, fetch in *. simpl in *.
  destruct (canceled range task); simpl.
  - split; unfold Qle; simpl; lia.
  - destruct (last (pipe range task)) as [ev|] eqn:Hlast; [|exact Hshown].
    apply last_Some in Hlast as [l Hl]. rewrite Hl in Hpipe.
    rewrite Forall_app, Forall_singleton in Hpipe.
    destruct Hpipe as [_ Hev]. exact Hev.
Qed.

(** X18. If the progress shown lies between 0 and 100 and so does the
    percent of every event waiting to be fetched, then after a call to
    [recent_events] the progress shown still lies between 0 and 100, and
    the indicator drawn by [gl_display] between 0 and 1. *)
Theorem progress_stays_within_bounds (self : VideoExporter range) :
  (0 <= progress range self)%Q /\ (progress range self <= 100)%Q ->
  Forall (fun entry =>
            Forall (fun ev => (0 <= percent ev)%Q /\ (percent ev <= 100)%Q)
                   (fst (fetch range (snd entry))))
         (export_tasks range self) ->
  let self' := recent_events range self in
  ((0 <= progress range self')%Q /\ (progress range self' <= 100)%Q)
  /\ ((0 <= gl_display range self')%Q /\ (gl_display range self' <= 1)%Q).
Proof.
  intros Hshown Hpipes self'.
  assert (H : (0 <= progress range self')%Q /\ (progress range self' <= 100)%Q).
  { subst self'.
    pose proof (recent_events_shown range self) as Hs.
    apply (f_equal snd) in Hs. simpl in Hs. rewrite Hs. clear Hs.
    change (progress range self)
      with (snd (status range self, progress range self)) in Hshown.
    revert Hshown.
    generalize (status range self, progress range self) as shown.
    induction Hpipes as [|[name task] l Hp _ IH]; intros shown Hshown.
    - exact Hshown.
    - rewrite poll_tasks_cons. apply IH.
      now apply poll_task_within. }
  split; [exact H|]. unfold gl_display. destruct H as [H0 H100].
  split.
  - apply Qle_shift_div_l; [reflexivity|]. lra.
  - apply Qle_shift_div_r; [reflexivity|]. lra.
Qed.

(** X19. A [should_export] notification cancels the tracked tasks before
    it looks for its other keys: if [range] or [export_dir] is missing the
    call raises [KeyError] without calling [export_data], and the tasks
    that were running are gone all the same. *)
Theorem on_notify_cancels_first
    (export_data :
       value range -> value range -> VideoExporter range -> Disk ->
       option exn * VideoExporter range * Disk)
    (self : VideoExporter range) (disk : Disk)
    (notification : gmap string (value range)) :
  notification !! "subject"%string = Some (Str range "should_export") ->
  notification !! "range"%string = None
  \/ notification !! "export_dir"%string = None ->
  exists key,
    on_notify range export_data self disk notification
    = (Some (KeyError key), cancel range self, disk)
    /\ (key = "range"%string \/ key = "export_dir"%string)
    /\ export_tasks range (cancel range self) = [].
Proof.
  intros Hsubject Hmissing. unfold on_notify. rewrite Hsubject. simpl.
  destruct (notification !! "range"%string) as [r|] eqn:Hr.
  - destruct Hmissing as [|Hd]; [discriminate|]. rewrite Hd.
    exists "export_dir"%string. auto.
  - exists "range"%string. auto.
Qed.

End Shows.

(** ** Polling on the sample tasks *)

Lemma recent_events_twice_witness :
  let self :=
    Sample.polled
      [("taskname"%string,
        Sample.task "job" [("Converting video"%string, 72%Q)] false)] in
  recent_events (Q * Q) (recent_events (Q * Q) self)
  = recent_events (Q * Q) self
  /\ progress (Q * Q) (recent_events (Q * Q) self) = 72%Q.
Proof.
  intros self. split; [|reflexivity].
  apply (recent_events_twice (Q * Q) self).
  apply List.Forall_cons; [reflexivity|apply List.Forall_nil].
Defined.

Lemma canceled_task_overrides_witness :
  status (Q * Q) (recent_events (Q * Q) Cases.two_tasks)
  = "Export has been canceled"%string
  /\ progress (Q * Q) (recent_events (Q * Q) Cases.two_tasks) = 0%Q.
Proof.
  apply (canceled_task_overrides (Q * Q) Cases.two_tasks []
           [("taskname"%string, Sample.task "second" [] false)]
           "taskname"
           (Sample.task "first" [("Converting video"%string, 72%Q)] true)).
  - reflexivity.
  - reflexivity.
  - apply List.Forall_cons; [split; reflexivity|apply List.Forall_nil].
Defined.

Lemma progress_stays_within_bounds_witness :
  let self :=
    Sample.polled
      [("taskname"%string,
        Sample.task "job" [("Converting video"%string, 72%Q)] false)] in
  (0 <= gl_display (Q * Q) (recent_events (Q * Q) self))%Q
  /\ (gl_display (Q * Q) (recent_events (Q * Q) self) <= 1)%Q.
Proof.
  intros self.
  destruct (progress_stays_within_bounds (Q * Q) self) as [_ Hshown].
  - split; unfold Qle; simpl; lia.
  - apply List.Forall_cons; [|apply List.Forall_nil].
    apply List.Forall_cons; [|apply List.Forall_nil].
    split; unfold Qle; simpl; lia.
  - exact Hshown.
Defined.

(** A notification that names the subject and nothing else. *)
Lemma on_notify_cancels_first_witness :
  exists key,
    on_notify (Q * Q) Cases.idle Cases.two_tasks
      (Sample.disk ["/rec/world.mp4"%string] true)
      {[ "subject"%string := Str (Q * Q) "should_export" ]}
    = (Some (KeyError key), cancel (Q * Q) Cases.two_tasks,
       Sample.disk ["/rec/world.mp4"%string] true).
Proof.
  destruct (on_notify_cancels_first (Q * Q) Cases.idle Cases.two_tasks
              (Sample.disk ["/rec/world.mp4"%string] true)
              {[ "subject"%string := Str (Q * Q) "should_export" ]})
    as (key & Hcall & _).
  - vm_compute. reflexivity.
  - left. vm_compute. reflexivity.
  - exists key. exact Hcall.
Defined.
